(** * DocumentDB start/stop by tag: a shallow embedding of the two Lambda handlers

    Sources: [start-docdb-cluster.py] and [stop-docdb-cluster.py].

    The two files are the same pipeline with a different verb and a different
    status gate.  The embedding keeps every function of the sources under its
    own name ([_regions_to_check], [_cluster_tags], [_should_start],
    [_should_stop], [_start_cluster], [_stop_cluster], [handler]); the body of
    [handler], which is identical in both files up to the verb, is written
    once and indexed by a [direction].

    Modelling choices.
    - Python [str] is [string]; the text handled (tag keys and values, region
      names, statuses, environment strings) is taken to be ASCII, and
      [lower] maps A-Z to a-z and leaves every other character alone.
    - A Python [dict] of tags is a [gmap string string].
    - The boto3 client is an oracle ([provider]) whose answers may depend on
      everything the handler did so far (the trace).  Faults raised by the
      oracle are instances of Python's [Exception], as botocore raises them.
    - Log lines are kept structured ([log_msg]) rather than rendered.
    - The handler runs in a state-and-exception monad over the list of
      results and the trace of provider calls and log lines. *)

From Stdlib Require Import Ascii String NArith List Bool Lia.
From stdpp Require Import base option list gmap strings.

Set Warnings "-register-all".

Local Open Scope string_scope.
Local Open Scope list_scope.

(** ** Strings as Python uses them *)

Definition is_upper_ascii (a : ascii) : bool :=
  let n := N_of_ascii a in ((65 <=? n) && (n <=? 90))%N.

Definition lower_ascii (a : ascii) : ascii :=
  if is_upper_ascii a then ascii_of_N (N_of_ascii a + 32) else a.

(** [str.lower()] *)
Fixpoint lower (s : string) : string :=
  match s with
  | EmptyString => EmptyString
  | String a s' => String (lower_ascii a) (lower s')
  end.

Fixpoint has_upper (s : string) : bool :=
  match s with
  | EmptyString => false
  | String a s' => is_upper_ascii a || has_upper s'
  end.

(** Characters [str.strip()] removes: tab, LF, VT, FF, CR, FS, GS, RS, US and
    the space. *)
Definition is_space (a : ascii) : bool :=
  let n := N_of_ascii a in
  (((9 <=? n) && (n <=? 13)) || ((28 <=? n) && (n <=? 32)))%N.

Fixpoint lstrip (s : string) : string :=
  match s with
  | String a s' => if is_space a then lstrip s' else s
  | EmptyString => EmptyString
  end.

Fixpoint rstrip (s : string) : string :=
  match s with
  | EmptyString => EmptyString
  | String a s' =>
      match rstrip s' with
      | EmptyString => if is_space a then EmptyString else String a EmptyString
      | r => String a r
      end
  end.

(** [str.strip()] *)
Definition strip (s : string) : string := rstrip (lstrip s).

(** [s.split(",")]: the pieces between commas, at least one piece. *)
Fixpoint split_comma (s : string) : list string :=
  match s with
  | EmptyString => [EmptyString]
  | String a s' =>
      if Ascii.eqb a "," then EmptyString :: split_comma s'
      else match split_comma s' with
           | p :: ps => String a p :: ps
           | [] => [String a EmptyString]
           end
  end.

(** Python truthiness of a [str]. *)
Definition truthy (s : string) : bool :=
  match s with EmptyString => false | _ => true end.

(** Python truthiness of an optional [str] ([None] and [""] are falsy). *)
Definition truthy_opt (o : option string) : bool :=
  match o with Some s => truthy s | None => false end.

(** Equality of two strings ignoring case, as the handlers test it: both
    sides lower-cased. *)
Definition eq_ignoring_case (a b : string) : Prop := lower a = lower b.

(** ** Configuration, read from the environment at import time *)

(** [os.getenv(name, dflt)] *)
Definition getenv (env : gmap string string) (name dflt : string) : string :=
  default dflt (env !! name).

Record config := {
  TAG_KEY : string;
  TAG_VALUE : string;
  REGIONS : list string;
  DRY_RUN : bool
}.

Definition load_config (env : gmap string string) : config := {|
  TAG_KEY := getenv env "TAG_KEY" "work-on-business-time";
  TAG_VALUE := lower (getenv env "TAG_VALUE" "true");
  REGIONS :=
    map strip
      (filter (fun r => truthy (strip r) = true)
         (split_comma (getenv env "REGIONS" "")));
  DRY_RUN := bool_decide (lower (getenv env "DRY_RUN" "false") = "true")
|}.

(** ** What the provider returns *)

(** One element of [describe_db_clusters]' ["DBClusters"].  The identifier is
    read with [c["DBClusterIdentifier"]] and is always supplied; the ARN and
    the status are read with [c.get]. *)
Record cluster := {
  DBClusterIdentifier : string;
  DBClusterArn : option string;
  Status : option string
}.

(** One page of the paginator; ["DBClusters"] is read with [page.get]. *)
Record page := { DBClusters : option (list cluster) }.

(** One element of ["TagList"]: [t["Key"]] and [t.get("Value", "")]. *)
Record tag := { Key : string; Value : option string }.

(** The answer of [list_tags_for_resource]; ["TagList"] is read with
    [resp.get]. *)
Record tag_response := { TagList : option (list tag) }.

(** Exceptions: the one fault the handlers name, and any other [Exception]. *)
Inductive exn :=
| InvalidDBClusterStateFault
| OtherException (name : string).

Inductive direction := Start | Stop.

(** ** Results, log lines and the trace *)

(** One element of the list returned under ["started"] / ["stopped"]. *)
Record action_result := {
  res_cluster : string;
  res_region : string;
  res_action : string
}.

Inductive level := Info | Warning | Error.

Inductive log_msg :=
| MsgRegion (region_name : string)
    (* "Verificando DocumentDB clusters na regiao: ..." *)
| MsgNoArn (cluster_id : string)
    (* "Cluster ... sem ARN - ignorando." *)
| MsgEval (cluster_id region_name status : string) (eligible : bool)
          (tags : gmap string string)
    (* the json.dumps line *)
| MsgWrongStatus (d : direction) (cluster_id status : string)
    (* "Cluster ... nao esta 'stopped' (status=...). Ignorando." *)
| MsgDryRun (d : direction) (cluster_id : string)
    (* "[DRY_RUN] start_db_cluster(...)" *)
| MsgInitiated (d : direction) (cluster_id : string)
    (* "Start iniciado para cluster: ..." *)
| MsgInvalidState (d : direction) (cluster_id : string)
    (* "Estado invalido para ligar cluster ..." *)
| MsgFailure (d : direction) (cluster_id : string) (e : exn).
    (* logger.exception("Falha ao ligar cluster ...") *)

(** What the handler does that is visible outside: provider calls, each with
    the fault it raised if any, and log lines, in program order. *)
Inductive event :=
| Call_paginate (region_name : string)
| Call_list_tags_for_resource (region_name arn : string)
| Call_start_db_cluster (region_name cluster_id : string) (fault : option exn)
| Call_stop_db_cluster (region_name cluster_id : string) (fault : option exn)
| Log (l : level) (m : log_msg).

(** The boto3 side.  Every answer is a function of the trace so far, so a
    provider may answer the same request differently as the run proceeds.
    [paginate] gives the finite sequence of pages of one region and the fault
    that ends the iteration early, if any. *)
Record provider := {
  session_region_name : option string;
  paginate : list event -> string -> list page * option exn;
  list_tags_for_resource : list event -> string -> string -> exn + tag_response;
  start_db_cluster : list event -> string -> string -> option exn;
  stop_db_cluster : list event -> string -> string -> option exn
}.

(** JSON-compatible Python values, for the handler's return value.  A dict
    literal keeps its keys in the order written. *)
Inductive pyval :=
| PStr (s : string)
| PBool (b : bool)
| PList (l : list pyval)
| PDict (d : list (string * pyval)).

(** [d.get(k)] on a dict literal. *)
Fixpoint dict_get (k : string) (d : list (string * pyval)) : option pyval :=
  match d with
  | [] => None
  | (k', v) :: d' => if bool_decide (k = k') then Some v else dict_get k d'
  end.

(** ** The handler's monad: state (results, trace) and exceptions *)

Record hstate := { results : list action_result; trace : list event }.

Inductive outcome (A : Type) :=
| Ret (a : A)
| Raise (e : exn).
Arguments Ret {A} a.
Arguments Raise {A} e.

Definition M (A : Type) : Type := hstate -> outcome A * hstate.

#[global] Instance M_ret : MRet M := fun A a st => (Ret a, st).

#[global] Instance M_bind : MBind M := fun A B f m st =>
  match m st with
  | (Ret a, st') => f a st'
  | (Raise e, st') => (Raise e, st')
  end.

Definition raise {A} (e : exn) : M A := fun st => (Raise e, st).

(** [try: m except Exception as e: h e] *)
Definition try_except {A} (m : M A) (h : exn -> M A) : M A := fun st =>
  match m st with
  | (Ret a, st') => (Ret a, st')
  | (Raise e, st') => h e st'
  end.

Definition emit (ev : event) : M unit := fun st =>
  (Ret tt, {| results := results st; trace := trace st ++ [ev] |}).

Definition log (l : level) (m : log_msg) : M unit := emit (Log l m).

(** [results.append(r)] *)
Definition append_result (r : action_result) : M unit := fun st =>
  (Ret tt, {| results := results st ++ [r]; trace := trace st |}).

Definition get_results : M (list action_result) := fun st =>
  (Ret (results st), st).

Definition get_trace : M (list event) := fun st => (Ret (trace st), st).

(** A Python [for] loop whose body may raise. *)
Fixpoint for_each {A} (body : A -> M unit) (l : list A) : M unit :=
  match l with
  | [] => mret tt
  | x :: xs => body x ;; for_each body xs
  end.

Definition init_state : hstate := {| results := []; trace := [] |}.

(** ** The functions of the two source files *)

Section Handlers.

Variable cfg : config.
Variable prov : provider.

(** [_regions_to_check()], the same in both files.
    [session.region_name or "us-east-1"]. *)
Definition _regions_to_check : list string :=
  match REGIONS cfg with
  | _ :: _ => REGIONS cfg
  | [] =>
      [ if truthy_opt (session_region_name prov)
        then default "us-east-1" (session_region_name prov)
        else "us-east-1" ]
  end.

(** The dict comprehension of [_cluster_tags]: a later entry with the same
    key replaces an earlier one. *)
Definition tags_of_list (l : list tag) : gmap string string :=
  foldl (fun m t => <[ Key t := default "" (Value t) ]> m) ∅ l.

(** [_cluster_tags(docdb, arn)], the same in both files.  The client [docdb]
    is identified by the region it was created for. *)
Definition _cluster_tags (docdb arn : string) : M (gmap string string) :=
  tr ← get_trace;
  emit (Call_list_tags_for_resource docdb arn);;
  match list_tags_for_resource prov tr docdb arn with
  | inl e => raise e
  | inr resp => mret (tags_of_list (default [] (TagList resp)))
  end.

(** [_should_start(tags)] of start-docdb-cluster.py. *)
Definition _should_start (tags : gmap string string) : bool :=
  match tags !! TAG_KEY cfg with
  | Some val => bool_decide (lower val = TAG_VALUE cfg)
  | None => false
  end.

(** [_should_stop(tags)] of stop-docdb-cluster.py. *)
Definition _should_stop (tags : gmap string string) : bool :=
  match tags !! TAG_KEY cfg with
  | Some val => bool_decide (lower val = TAG_VALUE cfg)
  | None => false
  end.

(** [docdb.start_db_cluster(DBClusterIdentifier=cluster_id)] *)
Definition call_start_db_cluster (docdb cluster_id : string) : M unit :=
  tr ← get_trace;
  let fault := start_db_cluster prov tr docdb cluster_id in
  emit (Call_start_db_cluster docdb cluster_id fault);;
  match fault with
  | Some e => raise e
  | None => mret tt
  end.

(** [docdb.stop_db_cluster(DBClusterIdentifier=cluster_id)] *)
Definition call_stop_db_cluster (docdb cluster_id : string) : M unit :=
  tr ← get_trace;
  let fault := stop_db_cluster prov tr docdb cluster_id in
  emit (Call_stop_db_cluster docdb cluster_id fault);;
  match fault with
  | Some e => raise e
  | None => mret tt
  end.

(** [_start_cluster(docdb, cluster_id)] of start-docdb-cluster.py. *)
Definition _start_cluster (docdb cluster_id : string) : M unit :=
  if DRY_RUN cfg then log Info (MsgDryRun Start cluster_id)
  else
    call_start_db_cluster docdb cluster_id;;
    log Info (MsgInitiated Start cluster_id).

(** [_stop_cluster(docdb, cluster_id)] of stop-docdb-cluster.py. *)
Definition _stop_cluster (docdb cluster_id : string) : M unit :=
  if DRY_RUN cfg then log Info (MsgDryRun Stop cluster_id)
  else
    call_stop_db_cluster docdb cluster_id;;
    log Info (MsgInitiated Stop cluster_id).

(** What differs between the two [handler]s. *)
Definition should_act (d : direction) : gmap string string -> bool :=
  match d with Start => _should_start | Stop => _should_stop end.

Definition act_on_cluster (d : direction) : string -> string -> M unit :=
  match d with Start => _start_cluster | Stop => _stop_cluster end.

(** The literal the status is compared with. *)
Definition gate_status (d : direction) : string :=
  match d with Start => "stopped" | Stop => "available" end.

(** The ["action"] recorded when not in dry-run, and the key of the result
    list in the summary. *)
Definition action_label (d : direction) : string :=
  match d with Start => "started" | Stop => "stopped" end.

(** The dict comprehension of the structured log line:
    [{k: tags[k] for k in tags if k.lower() == TAG_KEY.lower()}]. *)
Definition matching_tags (tags : gmap string string) : gmap string string :=
  filter (fun kv => lower kv.1 = lower (TAG_KEY cfg)) tags.

(** The body of the innermost loop of [handler], one cluster descriptor. *)
Definition process_cluster (d : direction) (region_name : string)
    (c : cluster) : M unit :=
  let cluster_id := DBClusterIdentifier c in
  let arn := DBClusterArn c in
  let status := lower (default "" (Status c)) in
  if negb (truthy_opt arn) then
    log Warning (MsgNoArn cluster_id)
  else
    tags ← _cluster_tags region_name (default "" arn);
    let eligible := should_act d tags in
    log Info (MsgEval cluster_id region_name status eligible
                (matching_tags tags));;
    if negb eligible then mret tt
    else if negb (bool_decide (status = gate_status d)) then
      log Info (MsgWrongStatus d cluster_id status)
    else
      try_except
        (act_on_cluster d region_name cluster_id;;
         append_result
           {| res_cluster := cluster_id;
              res_region := region_name;
              res_action :=
                if negb (DRY_RUN cfg) then action_label d else "dry-run" |})
        (fun e =>
           match e with
           | InvalidDBClusterStateFault =>
               log Warning (MsgInvalidState d cluster_id)
           | _ => log Error (MsgFailure d cluster_id e)
           end).

(** [for c in page.get("DBClusters", [])] *)
Definition process_page (d : direction) (region_name : string) (p : page)
  : M unit :=
  for_each (process_cluster d region_name) (default [] (DBClusters p)).

(** The body of the outer loop of [handler], one region.  The paginator is
    lazy, so a fault that ends the iteration is raised after the pages before
    it have been processed. *)
Definition process_region (d : direction) (region_name : string) : M unit :=
  log Info (MsgRegion region_name);;
  tr ← get_trace;
  emit (Call_paginate region_name);;
  for_each (process_page d region_name) (paginate prov tr region_name).1;;
  match (paginate prov tr region_name).2 with
  | Some e => raise e
  | None => mret tt
  end.

Definition result_to_py (r : action_result) : pyval :=
  PDict [("cluster", PStr (res_cluster r));
         ("region", PStr (res_region r));
         ("action", PStr (res_action r))].

(** The dict [handler] returns. *)
Definition summary (d : direction) (rs : list action_result) : pyval :=
  PDict [(action_label d, PList (map result_to_py rs));
         ("dry_run", PBool (DRY_RUN cfg));
         ("regions", PList (map PStr _regions_to_check));
         ("tag_key", PStr (TAG_KEY cfg));
         ("tag_value", PStr (TAG_VALUE cfg))].

(** [handler(event, context)]; neither argument is used. *)
Definition handler (d : direction) : M pyval :=
  for_each (process_region d) _regions_to_check;;
  rs ← get_results;
  mret (summary d rs).

End Handlers.

(** The two entry points. *)
Definition start_handler (cfg : config) (prov : provider) : M pyval :=
  handler cfg prov Start.

Definition stop_handler (cfg : config) (prov : provider) : M pyval :=
  handler cfg prov Stop.

(** One invocation: [handler] starts from an empty result list. *)
Definition invoke (cfg : config) (prov : provider) (d : direction)
  : outcome pyval * hstate :=
  handler cfg prov d init_state.

(** ** One cluster, path by path

    [cluster_step] lists the seven ways the loop body can go.  It is the
    interface between the monadic code and the theorems: [process_cluster]
    is shown to follow it, and the theorems about single clusters are read
    off by inversion. *)

Definition add_events (st : hstate) (evs : list event) : hstate :=
  {| results := results st; trace := trace st ++ evs |}.

Definition mutate_oracle (prov : provider) (d : direction)
  : list event -> string -> string -> option exn :=
  match d with
  | Start => start_db_cluster prov
  | Stop => stop_db_cluster prov
  end.

Definition mutate_event (d : direction) (region_name cluster_id : string)
    (fault : option exn) : event :=
  match d with
  | Start => Call_start_db_cluster region_name cluster_id fault
  | Stop => Call_stop_db_cluster region_name cluster_id fault
  end.

Definition fault_log (d : direction) (cluster_id : string) (e : exn) : event :=
  match e with
  | InvalidDBClusterStateFault => Log Warning (MsgInvalidState d cluster_id)
  | _ => Log Error (MsgFailure d cluster_id e)
  end.

(** The tag fetch and the structured log line of one evaluated cluster. *)
Definition eval_events (cfg : config) (d : direction) (region_name : string)
    (c : cluster) (arn : string) (tags : gmap string string) : list event :=
  [ Call_list_tags_for_resource region_name arn;
    Log Info (MsgEval (DBClusterIdentifier c) region_name
                (lower (default "" (Status c))) (should_act cfg d tags)
                (matching_tags cfg tags)) ].

Definition entry (region_name : string) (c : cluster) (act : string)
  : action_result :=
  {| res_cluster := DBClusterIdentifier c;
     res_region := region_name;
     res_action := act |}.

Definition fetched_tags (resp : tag_response) : gmap string string :=
  tags_of_list (default [] (TagList resp)).

Section ClusterStep.

Variable cfg : config.
Variable prov : provider.
Variable d : direction.
Variable region_name : string.
Variable c : cluster.
Variable st : hstate.

Inductive cluster_step : outcome unit * hstate -> Prop :=
| step_no_arn :
    truthy_opt (DBClusterArn c) = false ->
    cluster_step
      (Ret tt, add_events st [Log Warning (MsgNoArn (DBClusterIdentifier c))])
| step_tags_fault arn e :
    DBClusterArn c = Some arn -> truthy arn = true ->
    list_tags_for_resource prov (trace st) region_name arn = inl e ->
    cluster_step
      (Raise e, add_events st [Call_list_tags_for_resource region_name arn])
| step_ineligible arn resp :
    DBClusterArn c = Some arn -> truthy arn = true ->
    list_tags_for_resource prov (trace st) region_name arn = inr resp ->
    should_act cfg d (fetched_tags resp) = false ->
    cluster_step
      (Ret tt,
       add_events st (eval_events cfg d region_name c arn (fetched_tags resp)))
| step_wrong_status arn resp :
    DBClusterArn c = Some arn -> truthy arn = true ->
    list_tags_for_resource prov (trace st) region_name arn = inr resp ->
    should_act cfg d (fetched_tags resp) = true ->
    lower (default "" (Status c)) <> gate_status d ->
    cluster_step
      (Ret tt,
       add_events st
         (eval_events cfg d region_name c arn (fetched_tags resp)
          ++ [Log Info (MsgWrongStatus d (DBClusterIdentifier c)
                          (lower (default "" (Status c))))]))
| step_dry_run arn resp :
    DBClusterArn c = Some arn -> truthy arn = true ->
    list_tags_for_resource prov (trace st) region_name arn = inr resp ->
    should_act cfg d (fetched_tags resp) = true ->
    lower (default "" (Status c)) = gate_status d ->
    DRY_RUN cfg = true ->
    cluster_step
      (Ret tt,
       {| results := results st ++ [entry region_name c "dry-run"];
          trace := trace st
            ++ eval_events cfg d region_name c arn (fetched_tags resp)
            ++ [Log Info (MsgDryRun d (DBClusterIdentifier c))] |})
| step_acted arn resp :
    DBClusterArn c = Some arn -> truthy arn = true ->
    list_tags_for_resource prov (trace st) region_name arn = inr resp ->
    should_act cfg d (fetched_tags resp) = true ->
    lower (default "" (Status c)) = gate_status d ->
    DRY_RUN cfg = false ->
    mutate_oracle prov d
      (trace st ++ eval_events cfg d region_name c arn (fetched_tags resp))
      region_name (DBClusterIdentifier c) = None ->
    cluster_step
      (Ret tt,
       {| results := results st ++ [entry region_name c (action_label d)];
          trace := trace st
            ++ eval_events cfg d region_name c arn (fetched_tags resp)
            ++ [mutate_event d region_name (DBClusterIdentifier c) None;
                Log Info (MsgInitiated d (DBClusterIdentifier c))] |})
| step_action_fault arn resp e :
    DBClusterArn c = Some arn -> truthy arn = true ->
    list_tags_for_resource prov (trace st) region_name arn = inr resp ->
    should_act cfg d (fetched_tags resp) = true ->
    lower (default "" (Status c)) = gate_status d ->
    DRY_RUN cfg = false ->
    mutate_oracle prov d
      (trace st ++ eval_events cfg d region_name c arn (fetched_tags resp))
      region_name (DBClusterIdentifier c) = Some e ->
    cluster_step
      (Ret tt,
       add_events st
         (eval_events cfg d region_name c arn (fetched_tags resp)
          ++ [mutate_event d region_name (DBClusterIdentifier c) (Some e);
              fault_log d (DBClusterIdentifier c) e])).

End ClusterStep.

(** ** Reading a trace *)

Fixpoint count (f : event -> bool) (evs : list event) : nat :=
  match evs with
  | [] => 0
  | ev :: evs' => (if f ev then 1 else 0) + count f evs'
  end.

(** A state-changing provider call. *)
Definition is_mutating_call (ev : event) : bool :=
  match ev with
  | Call_start_db_cluster _ _ _ | Call_stop_db_cluster _ _ _ => true
  | _ => false
  end.

(** One run of [_start_cluster] / [_stop_cluster]: its first effect is either
    the provider call or, in dry-run, the "[DRY_RUN]" line. *)
Definition is_action_attempt (ev : event) : bool :=
  match ev with
  | Call_start_db_cluster _ _ _ | Call_stop_db_cluster _ _ _ => true
  | Log _ (MsgDryRun _ _) => true
  | _ => false
  end.

(** A provider call that raised. *)
Definition is_faulted_call (ev : event) : bool :=
  match ev with
  | Call_start_db_cluster _ _ (Some _) | Call_stop_db_cluster _ _ (Some _) => true
  | _ => false
  end.

(** The structured (json.dumps) log line. *)
Definition is_eval_line (ev : event) : bool :=
  match ev with
  | Log _ (MsgEval _ _ _ _ _) => true
  | _ => false
  end.

Definition is_tag_fetch (ev : event) : bool :=
  match ev with
  | Call_list_tags_for_resource _ _ => true
  | _ => false
  end.

(** The cluster of an action that was initiated: a state-changing call that
    returned, or a dry-run simulation. *)
Definition success_cluster (ev : event) : option string :=
  match ev with
  | Call_start_db_cluster _ cluster_id None => Some cluster_id
  | Call_stop_db_cluster _ cluster_id None => Some cluster_id
  | Log _ (MsgDryRun _ cluster_id) => Some cluster_id
  | _ => None
  end.

(** What dry-run keeps true of a state. *)
Definition dry_run_inv (st : hstate) : Prop :=
  Forall (fun ev => is_mutating_call ev = false) (trace st) /\
  Forall (fun r => res_action r = "dry-run") (results st).

(** The result list holds one entry per initiated action, in order. *)
Definition results_match_successes (st : hstate) : Prop :=
  map res_cluster (results st) = omap success_cluster (trace st).

(** Providers whose read calls (pagination, tag fetch) never raise. *)
Definition reads_never_fail (prov : provider) : Prop :=
  (forall tr region_name, (paginate prov tr region_name).2 = None) /\
  (forall tr region_name arn,
     exists resp, list_tags_for_resource prov tr region_name arn = inr resp).

(** The configured key and value, before any processing. *)
Definition configured_key (env : gmap string string) : string :=
  getenv env "TAG_KEY" "work-on-business-time".

Definition configured_value (env : gmap string string) : string :=
  getenv env "TAG_VALUE" "true".

Definition configured_dry_run (env : gmap string string) : string :=
  getenv env "DRY_RUN" "false".

(** Eligibility with the key matched ignoring case: some key of the tag set
    equals the configured key up to case, and its value, lower-cased, is the
    configured value lower-cased. *)
Definition eligible_key_ignoring_case (T : gmap string string)
    (K V : string) : Prop :=
  exists k v, T !! k = Some v /\ eq_ignoring_case k K /\ lower v = lower V.

(** Eligibility with the key looked up as it is written. *)
Definition eligible_exact_key (T : gmap string string) (K V : string) : Prop :=
  exists v, T !! K = Some v /\ lower v = lower V.

(** ** Concrete providers and configurations *)

Module Scenarios.

Definition mk_cluster (id st : string) : cluster :=
  {| DBClusterIdentifier := id;
     DBClusterArn := Some ("arn:" ++ id)%string;
     Status := Some st |}.

Definition cluster_A : cluster := mk_cluster "A" "Stopped".
Definition cluster_B : cluster := mk_cluster "B" "stopped".
Definition cluster_C : cluster := mk_cluster "C" "available".
Definition cluster_E : cluster :=
  {| DBClusterIdentifier := "E"; DBClusterArn := None;
     Status := Some "stopped" |}.

Definition tagged : tag_response :=
  {| TagList := Some [ {| Key := "work-on-business-time";
                          Value := Some "True" |} ] |}.

Definition other_tag : tag_response :=
  {| TagList := Some [ {| Key := "team"; Value := Some "x" |} ] |}.

(** Cluster A is tagged "True" and stopped, B carries another tag, C is
    tagged and available, E has no ARN.  Every call succeeds. *)
Definition world : provider := {|
  session_region_name := None;
  paginate := fun _ _ =>
    ([ {| DBClusters := Some [cluster_A; cluster_B] |};
       {| DBClusters := None |};
       {| DBClusters := Some [cluster_C; cluster_E] |} ], None);
  list_tags_for_resource := fun _ _ arn =>
    if bool_decide (arn = "arn:B") then inr other_tag else inr tagged;
  start_db_cluster := fun _ _ _ => None;
  stop_db_cluster := fun _ _ _ => None
|}.

(** The same clusters, but every state-changing call is refused. *)
Definition refusing_world : provider := {|
  session_region_name := Some "sa-east-1";
  paginate := paginate world;
  list_tags_for_resource := list_tags_for_resource world;
  start_db_cluster := fun _ _ _ => Some InvalidDBClusterStateFault;
  stop_db_cluster := fun _ _ _ => Some (OtherException "ClientError")
|}.

Definition cfg_default : config := load_config ∅.

Definition env_dry : gmap string string := {[ "DRY_RUN" := "TRUE" ]}.
Definition cfg_dry : config := load_config env_dry.

Definition env_upper : gmap string string := {[ "TAG_VALUE" := "True" ]}.

(** A tag whose key differs from the configured one by case only. *)
Definition env_key : gmap string string :=
  {[ "TAG_KEY" := "work-on-business-time" ]}.
Definition tags_other_case : gmap string string :=
  {[ "Work-On-Business-Time" := "true" ]}.
Definition tags_same_case : gmap string string :=
  {[ "work-on-business-time" := "TRUE" ]}.

End Scenarios.

(** ** Further readings of strings, traces and providers *)

Fixpoint has_comma (s : string) : bool :=
  match s with
  | EmptyString => false
  | String a s' => Ascii.eqb a "," || has_comma s'
  end.

(** Only whitespace and commas. *)
Fixpoint blank_or_commas (s : string) : bool :=
  match s with
  | EmptyString => true
  | String a s' => (is_space a || Ascii.eqb a ",") && blank_or_commas s'
  end.

(** [",".join(pieces)] *)
Fixpoint join_comma (pieces : list string) : string :=
  match pieces with
  | [] => EmptyString
  | [p] => p
  | p :: ps => (p ++ String "," (join_comma ps))%string
  end.

Definition starts_nonspace (s : string) : Prop :=
  match s with
  | EmptyString => True
  | String a _ => is_space a = false
  end.

(** The region announced by a "Verificando ..." line. *)
Definition region_line (ev : event) : option string :=
  match ev with
  | Log _ (MsgRegion region_name) => Some region_name
  | _ => None
  end.

(** The region a paginator was opened for. *)
Definition paginated_region (ev : event) : option string :=
  match ev with
  | Call_paginate region_name => Some region_name
  | _ => None
  end.

Definition is_dry_run_line (ev : event) : bool :=
  match ev with
  | Log _ (MsgDryRun _ _) => true
  | _ => false
  end.

(** A state-changing call of the other direction's verb. *)
Definition is_other_verb_call (d : direction) (ev : event) : bool :=
  match d, ev with
  | Start, Call_stop_db_cluster _ _ _ => true
  | Stop, Call_start_db_cluster _ _ _ => true
  | _, _ => false
  end.


(** Every page of every region lists no cluster, and pagination never
    fails. *)
Definition no_clusters (prov : provider) : Prop :=
  forall tr region_name,
    (paginate prov tr region_name).2 = None /\
    Forall (fun p => default [] (DBClusters p) = [])
      (paginate prov tr region_name).1.

(** The trace of a run that only opens each region. *)
Definition region_openings (regions : list string) : list event :=
  flat_map (fun r => [Log Info (MsgRegion r); Call_paginate r]) regions.

(** Each result entry has, in the trace, the structured line that made its
    cluster eligible with the status the gate asks for. *)
Definition result_justified (d : direction) (tr : list event)
    (r : action_result) : Prop :=
  exists tags,
    In (Log Info (MsgEval (res_cluster r) (res_region r) (gate_status d) true tags)) tr.

Definition tag_fetch_has_arn (ev : event) : Prop :=
  match ev with
  | Call_list_tags_for_resource _ arn => arn <> EmptyString
  | _ => True
  end.

Module ExtraScenarios.

(** A provider whose tag fetch always fails. *)
Definition tagless_world : provider := {|
  session_region_name := None;
  paginate := paginate Scenarios.world;
  list_tags_for_resource := fun _ _ _ => inl (OtherException "AccessDenied");
  start_db_cluster := fun _ _ _ => None;
  stop_db_cluster := fun _ _ _ => None
|}.

(** A provider with nothing to list. *)
Definition empty_world : provider := {|
  session_region_name := Some "eu-west-1";
  paginate := fun _ _ => ([ {| DBClusters := None |}; {| DBClusters := Some [] |} ], None);
  list_tags_for_resource := fun _ _ _ => inr {| TagList := None |};
  start_db_cluster := fun _ _ _ => None;
  stop_db_cluster := fun _ _ _ => None
|}.

Definition env_regions : gmap string string :=
  {[ "REGIONS" := " sa-east-1, us-east-1 ,," ]}.

Definition env_blank_regions : gmap string string :=
  {[ "REGIONS" := " , ,," ]}.

Definition two_tags : list tag :=
  [ {| Key := "work-on-business-time"; Value := Some "false" |};
    {| Key := "team"; Value := None |};
    {| Key := "work-on-business-time"; Value := Some "TRUE" |} ].

End ExtraScenarios.

(** The two events that open a region: its "Verificando ..." line and the
    opening of its paginator. *)
Definition is_opening (ev : event) : bool :=
  match ev with
  | Log _ (MsgRegion _) | Call_paginate _ => true
  | _ => false
  end.

(** The openings kept from a trace, in order. *)
Fixpoint openings (tr : list event) : list event :=
  match tr with
  | [] => []
  | ev :: tr' => if is_opening ev then ev :: openings tr' else openings tr'
  end.

(** The region named by a provider call. *)
Definition call_region (ev : event) : option string :=
  match ev with
  | Call_paginate r => Some r
  | Call_list_tags_for_resource r _ => Some r
  | Call_start_db_cluster r _ _ => Some r
  | Call_stop_db_cluster r _ _ => Some r
  | Log _ _ => None
  end.

(** Results and provider calls name only the given regions. *)
Definition within_regions (regions : list string) (st : hstate) : Prop :=
  Forall (fun r => In (res_region r) regions) (results st) /\
  Forall (fun ev => forall r, call_region ev = Some r -> In r regions) (trace st).

(** The same configuration with the dry-run flag forced. *)
Definition with_dry_run (b : bool) (cfg : config) : config :=
  {| TAG_KEY := TAG_KEY cfg; TAG_VALUE := TAG_VALUE cfg;
     REGIONS := REGIONS cfg; DRY_RUN := b |}.

(** The provider's read answers do not depend on what was done before. *)
Definition reads_ignore_trace (prov : provider) : Prop :=
  forall tr tr' region_name,
    paginate prov tr region_name = paginate prov tr' region_name /\
    forall arn,
      list_tags_for_resource prov tr region_name arn =
      list_tags_for_resource prov tr' region_name arn.

(** The provider accepts every start and stop call. *)
Definition actions_never_fail (prov : provider) : Prop :=
  forall tr region_name cluster_id,
    start_db_cluster prov tr region_name cluster_id = None /\
    stop_db_cluster prov tr region_name cluster_id = None.

(** What a result entry says apart from its action. *)
Definition acted_on (r : action_result) : string * string :=
  (res_cluster r, res_region r).

(** Two states that acted on the same clusters, in the same order. *)
Definition same_targets (st1 st2 : hstate) : Prop :=
  map acted_on (results st1) = map acted_on (results st2).

(** The warning of the [except InvalidDBClusterStateFault] branch. *)
Definition is_invalid_state_line (ev : event) : bool :=
  match ev with
  | Log Warning (MsgInvalidState _ _) => true
  | _ => false
  end.

(** The [logger.exception] line of the [except Exception] branch. *)
Definition is_failure_line (ev : event) : bool :=
  match ev with
  | Log Error (MsgFailure _ _ _) => true
  | _ => false
  end.

(** A state-changing call refused with the invalid-state fault. *)
Definition is_invalid_state_call (ev : event) : bool :=
  match ev with
  | Call_start_db_cluster _ _ (Some InvalidDBClusterStateFault)
  | Call_stop_db_cluster _ _ (Some InvalidDBClusterStateFault) => true
  | _ => false
  end.

(** A state-changing call that raised anything else. *)
Definition is_other_fault_call (ev : event) : bool :=
  match ev with
  | Call_start_db_cluster _ _ (Some (OtherException _))
  | Call_stop_db_cluster _ _ (Some (OtherException _)) => true
  | _ => false
  end.

(** * Theorems *)

(** ** The scenarios of the specification, run on the model *)

Example load_config_default :
  load_config ∅ =
  {| TAG_KEY := "work-on-business-time"; TAG_VALUE := "true";
     REGIONS := []; DRY_RUN := false |}.
Proof. vm_compute. reflexivity. Qed.

Example load_config_regions :
  REGIONS (load_config {[ "REGIONS" := " sa-east-1, us-east-1 ,," ]}) =
  ["sa-east-1"; "us-east-1"].
Proof. vm_compute. reflexivity. Qed.

Example start_acts_on_A :
  results (invoke Scenarios.cfg_default Scenarios.world Start).2 =
  [ {| res_cluster := "A"; res_region := "us-east-1";
       res_action := "started" |} ].
Proof. vm_compute. reflexivity. Qed.

Example stop_acts_on_C :
  results (invoke Scenarios.cfg_default Scenarios.world Stop).2 =
  [ {| res_cluster := "C"; res_region := "us-east-1";
       res_action := "stopped" |} ].
Proof. vm_compute. reflexivity. Qed.

Example dry_run_on_A :
  results (invoke Scenarios.cfg_dry Scenarios.world Start).2 =
  [ {| res_cluster := "A"; res_region := "us-east-1";
       res_action := "dry-run" |} ].
Proof. vm_compute. reflexivity. Qed.

Example start_returns_summary :
  (invoke Scenarios.cfg_default Scenarios.world Start).1 =
  Ret (PDict
         [("started",
           PList [PDict [("cluster", PStr "A"); ("region", PStr "us-east-1");
                         ("action", PStr "started")]]);
          ("dry_run", PBool false);
          ("regions", PList [PStr "us-east-1"]);
          ("tag_key", PStr "work-on-business-time");
          ("tag_value", PStr "true")]).
Proof. vm_compute. reflexivity. Qed.

Example refused_start_gives_no_result :
  invoke Scenarios.cfg_default Scenarios.refusing_world Start
  = (Ret (summary Scenarios.cfg_default Scenarios.refusing_world Start []),
     (invoke Scenarios.cfg_default Scenarios.refusing_world Start).2).
Proof. vm_compute. reflexivity. Qed.

(** ** Facts about strings *)

Lemma lower_ascii_upper (a : ascii) :
  is_upper_ascii a = true -> lower_ascii a <> a.
Proof.
  destruct a as [[] [] [] [] [] [] [] []]; vm_compute; congruence.
Qed.

Lemma lower_has_upper (s : string) : has_upper s = true -> lower s <> s.
Proof.
  induction s as [|a s IH]; simpl; [discriminate|].
  intros H Heq. injection Heq as Ha Hs.
  apply orb_true_iff in H as [H|H].
  - exact (lower_ascii_upper a H Ha).
  - exact (IH H Hs).
Qed.

Lemma lower_no_upper (s : string) : has_upper s = false -> lower s = s.
Proof.
  induction s as [|a s IH]; simpl; [reflexivity|].
  intros H. apply orb_false_iff in H as [Ha Hs].
  rewrite (IH Hs). f_equal.
  unfold lower_ascii. rewrite Ha. reflexivity.
Qed.

Lemma lower_ascii_idem (a : ascii) : lower_ascii (lower_ascii a) = lower_ascii a.
Proof. destruct a as [[] [] [] [] [] [] [] []]; vm_compute; reflexivity. Qed.

Lemma lower_idem (s : string) : lower (lower s) = lower s.
Proof.
  induction s as [|a s IH]; simpl; [reflexivity|].
  rewrite lower_ascii_idem, IH. reflexivity.
Qed.

(** ** The loop body follows [cluster_step] *)

Lemma cluster_step_eq cfg prov d region_name c st x y :
  cluster_step cfg prov d region_name c st x -> x = y ->
  cluster_step cfg prov d region_name c st y.
Proof. intros H <-. exact H. Qed.

Ltac same_state :=
  unfold add_events, eval_events, entry, fetched_tags; simpl;
  rewrite <- ?app_assoc; simpl; reflexivity.

Ltac by_step lem :=
  eapply cluster_step_eq; [ eapply lem; eassumption | same_state ].

Lemma process_cluster_step cfg prov d region_name c st :
  cluster_step cfg prov d region_name c st
    (process_cluster cfg prov d region_name c st).
Proof.
  unfold process_cluster.
  destruct (truthy_opt (DBClusterArn c)) eqn:Harn; simpl.
  2:{ apply step_no_arn. exact Harn. }
  destruct (DBClusterArn c) as [arn|] eqn:Ha; [|discriminate]. simpl in Harn.
  unfold _cluster_tags, mbind, M_bind, get_trace, emit, log, emit, raise, mret, M_ret.
  simpl.
  destruct (list_tags_for_resource prov (trace st) region_name arn) as [e|resp] eqn:Ht.
  { by_step step_tags_fault. }
  simpl. fold (fetched_tags resp).
  destruct (should_act cfg d (fetched_tags resp)) eqn:Hel; simpl.
  2:{ eapply cluster_step_eq; [eapply step_ineligible; eassumption|].
      unfold add_events, eval_events. rewrite Hel. same_state. }
  destruct (bool_decide (lower (default "" (Status c)) = gate_status d)) eqn:Hg; simpl.
  2:{ apply bool_decide_eq_false in Hg.
      eapply cluster_step_eq; [eapply step_wrong_status; eassumption|].
      unfold add_events, eval_events. rewrite Hel. same_state. }
  apply bool_decide_eq_true in Hg.
  unfold try_except.
  destruct (DRY_RUN cfg) eqn:Hdry.
  - eapply cluster_step_eq; [eapply step_dry_run; eassumption|].
    unfold eval_events. rewrite Hel.
    destruct d; simpl; unfold _start_cluster, _stop_cluster; rewrite Hdry;
      unfold log, emit, append_result; simpl; rewrite <- ?app_assoc; reflexivity.
  - destruct (mutate_oracle prov d
      (trace st ++ eval_events cfg d region_name c arn (fetched_tags resp))
      region_name (DBClusterIdentifier c)) as [e|] eqn:Hm.
    + eapply cluster_step_eq; [eapply step_action_fault; eassumption|].
      revert Hm. unfold eval_events. rewrite Hel. intros Hm.
      destruct d; simpl in *; unfold _start_cluster, _stop_cluster; rewrite Hdry;
        unfold call_start_db_cluster, call_stop_db_cluster, mbind, M_bind,
          get_trace, log, emit, raise, mret, M_ret, append_result, add_events; simpl;
        rewrite <- !app_assoc; simpl; rewrite Hm; simpl;
        destruct e; simpl; rewrite <- ?app_assoc; reflexivity.
    + eapply cluster_step_eq; [eapply step_acted; eassumption|].
      revert Hm. unfold eval_events. rewrite Hel. intros Hm.
      destruct d; simpl in *; unfold _start_cluster, _stop_cluster; rewrite Hdry;
        unfold call_start_db_cluster, call_stop_db_cluster, mbind, M_bind,
          get_trace, log, emit, raise, mret, M_ret, append_result, add_events; simpl;
        rewrite <- !app_assoc; simpl; rewrite Hm; simpl;
        rewrite <- ?app_assoc; reflexivity.
Qed.

(** ** Loops *)

Section Loops.

Context {A : Type} (body : A -> M unit).

Lemma for_each_cons_ret x xs st st' :
  body x st = (Ret tt, st') ->
  for_each body (x :: xs) st = for_each body xs st'.
Proof.
  intros H. simpl. unfold mbind, M_bind. rewrite H. reflexivity.
Qed.

Lemma for_each_cons_raise x xs st st' e :
  body x st = (Raise e, st') ->
  for_each body (x :: xs) st = (Raise e, st').
Proof.
  intros H. simpl. unfold mbind, M_bind. rewrite H. reflexivity.
Qed.

(** A property of the state kept by the body is kept by the loop, however
    the loop ends. *)
Lemma for_each_inv (P : hstate -> Prop) l :
  (forall x st, P st -> P (body x st).2) ->
  forall st, P st -> P (for_each body l st).2.
Proof.
  intros Hbody. induction l as [|x xs IH]; intros st HP; simpl.
  - exact HP.
  - unfold mbind, M_bind.
    specialize (Hbody x st HP).
    destruct (body x st) as [[[]|e] st']; simpl in *.
    + apply IH. exact Hbody.
    + exact Hbody.
Qed.

(** A body that never raises gives a loop that never raises. *)
Lemma for_each_returns l :
  (forall x st, exists st', body x st = (Ret tt, st')) ->
  forall st, exists st', for_each body l st = (Ret tt, st').
Proof.
  intros Hbody. induction l as [|x xs IH]; intros st; simpl.
  - eexists. reflexivity.
  - unfold mbind, M_bind.
    destruct (Hbody x st) as [st' ->]. apply IH.
Qed.

End Loops.

(** ** From one cluster to the whole invocation *)

Section Invariants.

Variable cfg : config.
Variable prov : provider.
Variable d : direction.
Variable P : hstate -> Prop.

Hypothesis P_cluster :
  forall region_name c st,
    P st -> P (process_cluster cfg prov d region_name c st).2.
Hypothesis P_region_line :
  forall region_name st,
    P st -> P (add_events st [Log Info (MsgRegion region_name)]).
Hypothesis P_paginate :
  forall region_name st,
    P st -> P (add_events st [Call_paginate region_name]).

Lemma process_page_inv region_name p st :
  P st -> P (process_page cfg prov d region_name p st).2.
Proof.
  unfold process_page. apply for_each_inv. intros c st'. apply P_cluster.
Qed.

Lemma process_region_inv region_name st :
  P st -> P (process_region cfg prov d region_name st).2.
Proof.
  intros HP. unfold process_region, mbind, M_bind, log, get_trace. simpl.
  pose proof (P_paginate region_name _ (P_region_line region_name st HP)) as H2.
  unfold add_events in H2. simpl in H2.
  pose proof (for_each_inv (process_page cfg prov d region_name) P
    (paginate prov (trace st ++ [Log Info (MsgRegion region_name)]) region_name).1
    (fun p s => process_page_inv region_name p s) _ H2) as H3.
  destruct (for_each _ _ _) as [[[]|e] st']; simpl in *; [|exact H3].
  destruct (paginate _ _ _).2; simpl; exact H3.
Qed.

Lemma handler_inv st : P st -> P (handler cfg prov d st).2.
Proof.
  intros HP. unfold handler, mbind, M_bind.
  pose proof (for_each_inv (process_region cfg prov d) P
    (_regions_to_check cfg prov) (fun r s => process_region_inv r s) st HP) as H.
  destruct (for_each _ _ _) as [[[]|e] st']; simpl in *; exact H.
Qed.

End Invariants.

(** [handler] ends by returning the summary of the results gathered, unless a
    region raised. *)
Lemma handler_run cfg prov d st :
  handler cfg prov d st =
  match for_each (process_region cfg prov d) (_regions_to_check cfg prov) st with
  | (Ret _, st') => (Ret (summary cfg prov d (results st')), st')
  | (Raise e, st') => (Raise e, st')
  end.
Proof.
  unfold handler, mbind, M_bind, get_results, mret, M_ret.
  destruct (for_each _ _ _) as [[[]|e] st']; reflexivity.
Qed.

(** ** Providers whose read calls never raise *)

Lemma process_cluster_returns cfg prov d :
  reads_never_fail prov ->
  forall region_name c st,
    exists st', process_cluster cfg prov d region_name c st = (Ret tt, st').
Proof.
  intros [_ Htags] region_name c st.
  pose proof (process_cluster_step cfg prov d region_name c st) as H.
  inversion H; subst; try (eexists; reflexivity).
  destruct (Htags (trace st) region_name arn) as [resp Hr]. congruence.
Qed.

Lemma process_region_returns cfg prov d :
  reads_never_fail prov ->
  forall region_name st,
    exists st', process_region cfg prov d region_name st = (Ret tt, st').
Proof.
  intros Hr region_name st.
  unfold process_region, mbind, M_bind, log, get_trace, emit. simpl.
  destruct (for_each_returns (process_page cfg prov d region_name)
    (paginate prov (trace st ++ [Log Info (MsgRegion region_name)]) region_name).1
    (fun p s => for_each_returns _ _
       (process_cluster_returns cfg prov d Hr region_name) s)
    {| results := results st;
       trace := (trace st ++ [Log Info (MsgRegion region_name)])
                ++ [Call_paginate region_name] |}) as [st' Hst'].
  rewrite Hst'. destruct Hr as [Hp _]. rewrite Hp. eexists. reflexivity.
Qed.

Lemma handler_returns cfg prov d :
  reads_never_fail prov ->
  forall st, exists st',
    handler cfg prov d st = (Ret (summary cfg prov d (results st')), st').
Proof.
  intros Hr st. rewrite handler_run.
  destruct (for_each_returns (process_region cfg prov d)
    (_regions_to_check cfg prov) (process_region_returns cfg prov d Hr) st)
    as [st' ->].
  eexists. reflexivity.
Qed.

(** ** Eligibility *)

Lemma should_start_exact cfg T :
  _should_start cfg T = true <->
  exists v, T !! TAG_KEY cfg = Some v /\ lower v = TAG_VALUE cfg.
Proof.
  unfold _should_start. destruct (T !! TAG_KEY cfg) as [v|]; split.
  - intros H. apply bool_decide_eq_true in H. eauto.
  - intros (v' & [= <-] & H). apply bool_decide_eq_true. exact H.
  - discriminate.
  - intros (v' & [=] & _).
Qed.

Lemma should_stop_is_should_start cfg T : _should_stop cfg T = _should_start cfg T.
Proof. reflexivity. Qed.

(** C1, as amended.  For every environment (hence every configured key K and
    value V) and every tag set T, [_should_start] and [_should_stop] return
    true if and only if T has an entry under exactly the key K (the lookup is
    case-sensitive) whose value, lower-cased, equals V lower-cased; when T has
    no entry under K they return false. *)
Theorem eligibility_exact_key (env T : gmap string string) :
  (_should_start (load_config env) T = true <->
   eligible_exact_key T (configured_key env) (configured_value env)) /\
  (_should_stop (load_config env) T = true <->
   eligible_exact_key T (configured_key env) (configured_value env)) /\
  (T !! configured_key env = None ->
   _should_start (load_config env) T = false /\
   _should_stop (load_config env) T = false).
Proof.
  assert (Hs : _should_start (load_config env) T = true <->
               eligible_exact_key T (configured_key env) (configured_value env)).
  { rewrite should_start_exact. reflexivity. }
  repeat split.
  - apply Hs.
  - apply Hs.
  - rewrite should_stop_is_should_start. apply Hs.
  - rewrite should_stop_is_should_start. apply Hs.
  - unfold _should_start. simpl. unfold configured_key in H. rewrite H. reflexivity.
  - unfold _should_stop. simpl. unfold configured_key in H. rewrite H. reflexivity.
Qed.

Lemma eligibility_exact_key_witness :
  _should_start (load_config Scenarios.env_key) Scenarios.tags_same_case = true /\
  _should_start (load_config Scenarios.env_key) Scenarios.tags_other_case = false.
Proof.
  split.
  - apply (proj1 (eligibility_exact_key Scenarios.env_key Scenarios.tags_same_case)).
    exists "TRUE". split; vm_compute; reflexivity.
  - apply (proj2 (proj2 (eligibility_exact_key Scenarios.env_key
                           Scenarios.tags_other_case))).
    vm_compute. reflexivity.
Defined.

(** C1, as stated, fails: with the configured key "work-on-business-time", a
    tag set whose only key is "Work-On-Business-Time" (value "true") contains
    the key under a case-insensitive match, yet the predicate is false. *)
Lemma eligibility_key_case_counterexample :
  ~ (_should_start (load_config Scenarios.env_key) Scenarios.tags_other_case = true <->
     eligible_key_ignoring_case Scenarios.tags_other_case
       (configured_key Scenarios.env_key) (configured_value Scenarios.env_key)).
Proof.
  intros [_ H].
  assert (He : eligible_key_ignoring_case Scenarios.tags_other_case
                 (configured_key Scenarios.env_key)
                 (configured_value Scenarios.env_key)).
  { exists "Work-On-Business-Time", "true". repeat split; vm_compute; reflexivity. }
  apply H in He. vm_compute in He. discriminate He.
Qed.

(** ** One evaluated cluster *)

Lemma count_app f evs1 evs2 : count f (evs1 ++ evs2) = count f evs1 + count f evs2.
Proof. induction evs1 as [|ev evs1 IH]; simpl; [reflexivity|]. rewrite IH. lia. Qed.

(** Inversion of [cluster_step] at the loop body, with the impossible paths
    closed by the hypotheses at hand. *)
Ltac cluster_paths cfg prov d region_name c st :=
  let H := fresh "Hstep" in
  pose proof (process_cluster_step cfg prov d region_name c st) as H;
  inversion H; subst; simplify_eq;
  try match goal with
      | Ha : DBClusterArn ?c = Some ?arn, Ht : truthy ?arn = true,
        Hn : truthy_opt (DBClusterArn ?c) = false |- _ =>
          exfalso; rewrite Ha in Hn; simpl in Hn; congruence
      end;
  try congruence;
  repeat match goal with
  | Ha : DBClusterArn ?c = Some ?a1, Hb : DBClusterArn ?c = Some ?a2 |- _ =>
      assert (a2 = a1) by congruence; subst a2; clear Hb
  | Ha : list_tags_for_resource ?p ?t ?r ?a = inr ?r1,
    Hb : list_tags_for_resource ?p ?t ?r ?a = inr ?r2 |- _ =>
      assert (r2 = r1) by congruence; subst r2; clear Hb
  end;
  try match goal with
  | Heq : _ = process_cluster _ _ _ _ _ _ |- _ => rewrite <- ?Heq
  end.

(** C2, as amended.  For every cluster the handler evaluates (it has an ARN
    and its tags were fetched): one structured log line is emitted; if it is
    tag-eligible and its lower-cased status is the gate's ("stopped" for start,
    "available" for stop), the action is attempted exactly once, and one
    entry is appended to the result list when the attempt does not raise and
    none when it raises; if it is not tag-eligible or the status does not
    match, no action is attempted and the result list is unchanged. *)
Theorem cluster_action_and_result cfg prov d region_name c st arn resp :
  DBClusterArn c = Some arn -> truthy arn = true ->
  list_tags_for_resource prov (trace st) region_name arn = inr resp ->
  exists evs,
    trace (process_cluster cfg prov d region_name c st).2 = trace st ++ evs /\
    count is_eval_line evs = 1 /\
    (should_act cfg d (fetched_tags resp) = true /\
     lower (default "" (Status c)) =
       match d with Start => "stopped" | Stop => "available" end ->
     count is_action_attempt evs = 1 /\
     results (process_cluster cfg prov d region_name c st).2 =
       results st ++
       (if existsb is_faulted_call evs then []
        else [ {| res_cluster := DBClusterIdentifier c;
                  res_region := region_name;
                  res_action :=
                    if DRY_RUN cfg then "dry-run"
                    else match d with Start => "started" | Stop => "stopped" end
               |} ])) /\
    (should_act cfg d (fetched_tags resp) = false \/
     lower (default "" (Status c)) <>
       match d with Start => "stopped" | Stop => "available" end ->
     count is_action_attempt evs = 0 /\
     results (process_cluster cfg prov d region_name c st).2 = results st).
Proof.
  intros Ha Harn Ht.
  change (match d with Start => "stopped" | Stop => "available" end)
    with (gate_status d).
  change (match d with Start => "started" | Stop => "stopped" end)
    with (action_label d).
  cluster_paths cfg prov d region_name c st; simpl.
  - (* not eligible *)
    eexists. split; [reflexivity|]. split; [reflexivity|]. split.
    + intros [He _]. congruence.
    + intros _. split; reflexivity.
  - (* wrong status *)
    eexists. split; [reflexivity|]. split; [reflexivity|]. split.
    + intros [_ Hg]. congruence.
    + intros _. split; reflexivity.
  - (* dry run *)
    eexists. split; [reflexivity|]. split; [reflexivity|]. split.
    + intros _. split; [reflexivity|].
      match goal with Hd : DRY_RUN cfg = true |- _ => rewrite Hd end. reflexivity.
    + intros [He|Hg]; congruence.
  - (* acted *)
    eexists. split; [reflexivity|]. split; [destruct d; reflexivity|]. split.
    + intros _. split; [destruct d; reflexivity|].
      match goal with Hd : DRY_RUN cfg = false |- _ => rewrite Hd end.
      destruct d; reflexivity.
    + intros [He|Hg]; congruence.
  - (* the action raised *)
    eexists. split; [reflexivity|].
    split; [destruct d, e; reflexivity|]. split.
    + intros _. split; [destruct d, e; reflexivity|].
      destruct d, e; simpl; rewrite app_nil_r; reflexivity.
    + intros [He|Hg]; congruence.
Qed.

Lemma cluster_action_and_result_witness :
  exists evs,
    trace (process_cluster Scenarios.cfg_default Scenarios.world Start
             "us-east-1" Scenarios.cluster_A init_state).2
    = trace init_state ++ evs /\
    count is_action_attempt evs = 1.
Proof.
  destruct (cluster_action_and_result Scenarios.cfg_default Scenarios.world
              Start "us-east-1" Scenarios.cluster_A init_state "arn:A"
              Scenarios.tagged)
    as (evs & Htr & _ & Hyes & _); [reflexivity | reflexivity | reflexivity |].
  exists evs. split; [exact Htr|].
  apply Hyes. split; vm_compute; reflexivity.
Defined.

(** C2, as stated, fails: cluster A is tag-eligible and stopped, the provider
    refuses the start call, and no entry is appended for it. *)
Lemma refused_action_counterexample :
  ~ (should_act Scenarios.cfg_default Start (fetched_tags Scenarios.tagged) = true /\
     lower (default "" (Status Scenarios.cluster_A)) = "stopped" ->
     exists r,
       results (process_cluster Scenarios.cfg_default Scenarios.refusing_world
                  Start "us-east-1" Scenarios.cluster_A init_state).2
       = results init_state ++ [r]).
Proof.
  intros H. destruct H as [r Hr].
  - split; vm_compute; reflexivity.
  - vm_compute in Hr. discriminate Hr.
Qed.

(** C3.  For a tag-eligible cluster the handler evaluates, the action is
    attempted exactly when the reported status equals the gate's literal
    ("stopped" for start, "available" for stop) ignoring case; with any other
    status no action is attempted, the result list is unchanged and the
    informational skip line is logged. *)
Theorem status_gate_ignores_case cfg prov d region_name c st arn resp :
  DBClusterArn c = Some arn -> truthy arn = true ->
  list_tags_for_resource prov (trace st) region_name arn = inr resp ->
  should_act cfg d (fetched_tags resp) = true ->
  exists evs,
    (process_cluster cfg prov d region_name c st).1 = Ret tt /\
    trace (process_cluster cfg prov d region_name c st).2 = trace st ++ evs /\
    (eq_ignoring_case (default "" (Status c))
       match d with Start => "stopped" | Stop => "available" end ->
     count is_action_attempt evs = 1) /\
    (~ eq_ignoring_case (default "" (Status c))
         match d with Start => "stopped" | Stop => "available" end ->
     count is_action_attempt evs = 0 /\
     results (process_cluster cfg prov d region_name c st).2 = results st /\
     In (Log Info (MsgWrongStatus d (DBClusterIdentifier c)
                     (lower (default "" (Status c))))) evs).
Proof.
  intros Ha Harn Ht Hel.
  assert (Hlit : forall s,
            eq_ignoring_case s match d with Start => "stopped" | Stop => "available" end
            <-> lower s = gate_status d).
  { intros s. unfold eq_ignoring_case. destruct d; simpl; reflexivity. }
  setoid_rewrite Hlit.
  cluster_paths cfg prov d region_name c st; simpl.
  - (* wrong status *)
    eexists. split; [reflexivity|]. split; [reflexivity|]. split.
    + intros Hg. congruence.
    + intros _. split; [reflexivity|]. split; [reflexivity|].
      simpl. right. right. left. reflexivity.
  - (* dry run *)
    eexists. split; [reflexivity|]. split; [reflexivity|]. split.
    + intros _. reflexivity.
    + intros Hg. congruence.
  - (* acted *)
    eexists. split; [reflexivity|]. split; [reflexivity|]. split.
    + intros _. destruct d; reflexivity.
    + intros Hg. congruence.
  - (* the action raised *)
    eexists. split; [reflexivity|]. split; [reflexivity|]. split.
    + intros _. destruct d, e; reflexivity.
    + intros Hg. congruence.
Qed.

Lemma status_gate_ignores_case_witness :
  exists evs,
    trace (process_cluster Scenarios.cfg_default Scenarios.world Start
             "us-east-1" Scenarios.cluster_A init_state).2
    = trace init_state ++ evs /\
    count is_action_attempt evs = 1.
Proof.
  destruct (status_gate_ignores_case Scenarios.cfg_default Scenarios.world
              Start "us-east-1" Scenarios.cluster_A init_state "arn:A"
              Scenarios.tagged)
    as (evs & _ & Htr & Hyes & _);
    [reflexivity | reflexivity | reflexivity | vm_compute; reflexivity |].
  exists evs. split; [exact Htr|].
  apply Hyes. vm_compute. reflexivity.
Defined.

(** C6.  A cluster descriptor without an ARN ([None] or the empty string) is
    skipped with the warning alone: the loop body returns normally, the
    trace grows by exactly the warning line (so no tag fetch, no structured
    eligibility line and no action), the result list is unchanged, and the
    loop goes on with the clusters that follow. *)
Theorem cluster_without_arn_is_skipped cfg prov d region_name c rest st :
  truthy_opt (DBClusterArn c) = false ->
  process_cluster cfg prov d region_name c st =
    (Ret tt,
     {| results := results st;
        trace := trace st ++ [Log Warning (MsgNoArn (DBClusterIdentifier c))] |}) /\
  for_each (process_cluster cfg prov d region_name) (c :: rest) st =
    for_each (process_cluster cfg prov d region_name) rest
      {| results := results st;
         trace := trace st ++ [Log Warning (MsgNoArn (DBClusterIdentifier c))] |}.
Proof.
  intros Hno.
  assert (Hrun : process_cluster cfg prov d region_name c st =
    (Ret tt,
     {| results := results st;
        trace := trace st ++ [Log Warning (MsgNoArn (DBClusterIdentifier c))] |})).
  { unfold process_cluster. rewrite Hno. reflexivity. }
  split; [exact Hrun|].
  apply for_each_cons_ret. exact Hrun.
Qed.

Lemma cluster_without_arn_is_skipped_witness :
  process_cluster Scenarios.cfg_default Scenarios.world Stop "us-east-1"
    Scenarios.cluster_E init_state =
  (Ret tt, {| results := []; trace := [Log Warning (MsgNoArn "E")] |}).
Proof.
  apply (cluster_without_arn_is_skipped Scenarios.cfg_default Scenarios.world
           Stop "us-east-1" Scenarios.cluster_E [] init_state).
  reflexivity.
Defined.

(** ** Dry-run *)

Lemma dry_run_inv_cluster cfg prov d :
  DRY_RUN cfg = true ->
  forall region_name c st,
    dry_run_inv st ->
    dry_run_inv (process_cluster cfg prov d region_name c st).2.
Proof.
  intros Hdry region_name c st [Htr Hres]. unfold dry_run_inv.
  cluster_paths cfg prov d region_name c st; simpl;
    rewrite ?Forall_app; repeat split; auto;
    repeat (apply Forall_cons; split; [reflexivity|]); apply Forall_nil_2.
Qed.

Lemma dry_run_inv_event st ev :
  is_mutating_call ev = false ->
  dry_run_inv st -> dry_run_inv (add_events st [ev]).
Proof.
  intros Hev [Htr Hres]. split; simpl; [|exact Hres].
  apply Forall_app. split; [exact Htr|].
  apply Forall_cons. split; [exact Hev|apply Forall_nil_2].
Qed.

(** C4.  With the dry-run flag set, [_start_cluster] and [_stop_cluster] only
    log the "[DRY_RUN]" line and return; and over a whole invocation, in
    either direction and whatever the provider lists in whatever region, the
    trace holds no state-changing provider call and every result entry has
    action "dry-run". *)
Theorem dry_run_changes_nothing cfg prov :
  DRY_RUN cfg = true ->
  (forall docdb cluster_id st,
     _start_cluster cfg prov docdb cluster_id st =
       (Ret tt, {| results := results st;
                   trace := trace st ++ [Log Info (MsgDryRun Start cluster_id)] |})) /\
  (forall docdb cluster_id st,
     _stop_cluster cfg prov docdb cluster_id st =
       (Ret tt, {| results := results st;
                   trace := trace st ++ [Log Info (MsgDryRun Stop cluster_id)] |})) /\
  (forall d,
     Forall (fun ev => is_mutating_call ev = false) (trace (invoke cfg prov d).2) /\
     Forall (fun r => res_action r = "dry-run") (results (invoke cfg prov d).2)).
Proof.
  intros Hdry. split; [|split].
  - intros docdb cluster_id st. unfold _start_cluster. rewrite Hdry. reflexivity.
  - intros docdb cluster_id st. unfold _stop_cluster. rewrite Hdry. reflexivity.
  - intros d. unfold invoke.
    apply (handler_inv cfg prov d dry_run_inv).
    + apply dry_run_inv_cluster. exact Hdry.
    + intros region_name st. apply dry_run_inv_event. reflexivity.
    + intros region_name st. apply dry_run_inv_event. reflexivity.
    + split; apply Forall_nil_2.
Qed.

Lemma dry_run_changes_nothing_witness :
  Forall (fun ev => is_mutating_call ev = false)
    (trace (invoke Scenarios.cfg_dry Scenarios.world Start).2) /\
  Forall (fun r => res_action r = "dry-run")
    (results (invoke Scenarios.cfg_dry Scenarios.world Start).2).
Proof.
  apply (dry_run_changes_nothing Scenarios.cfg_dry Scenarios.world).
  vm_compute. reflexivity.
Defined.

(** ** Faults of the action call *)

Lemma results_match_cluster cfg prov d region_name c st :
  results_match_successes st ->
  results_match_successes (process_cluster cfg prov d region_name c st).2.
Proof.
  unfold results_match_successes. intros Hst.
  cluster_paths cfg prov d region_name c st; simpl;
    rewrite ?map_app, ?omap_app, Hst; simpl;
    rewrite ?app_nil_r; try reflexivity.
  - destruct d; reflexivity.
  - destruct d, e; simpl; rewrite app_nil_r; reflexivity.
Qed.

Lemma results_match_event st ev :
  success_cluster ev = None ->
  results_match_successes st -> results_match_successes (add_events st [ev]).
Proof.
  unfold results_match_successes. intros Hev Hst. simpl.
  rewrite omap_app, Hst. simpl. rewrite Hev, app_nil_r. reflexivity.
Qed.

(** C5.  When the state-changing call for an eligible, gated cluster raises
    (the invalid-state fault or any other exception), the loop body returns
    normally with the result list unchanged and the fault logged, and the
    loop goes on with the clusters that follow; over a whole invocation the
    clusters of the result list are exactly, in order, those of the actions
    that were initiated (a call that returned, or a dry-run simulation); and
    when the read calls do not fail the handler returns, whatever the
    state-changing calls do. *)
Theorem action_fault_is_isolated cfg prov d :
  (forall region_name c rest st arn resp e,
     DBClusterArn c = Some arn -> truthy arn = true ->
     list_tags_for_resource prov (trace st) region_name arn = inr resp ->
     should_act cfg d (fetched_tags resp) = true ->
     lower (default "" (Status c)) = gate_status d ->
     DRY_RUN cfg = false ->
     mutate_oracle prov d
       (trace st ++ eval_events cfg d region_name c arn (fetched_tags resp))
       region_name (DBClusterIdentifier c) = Some e ->
     exists st',
       process_cluster cfg prov d region_name c st = (Ret tt, st') /\
       results st' = results st /\
       In (mutate_event d region_name (DBClusterIdentifier c) (Some e)) (trace st') /\
       In (fault_log d (DBClusterIdentifier c) e) (trace st') /\
       for_each (process_cluster cfg prov d region_name) (c :: rest) st =
       for_each (process_cluster cfg prov d region_name) rest st') /\
  map res_cluster (results (invoke cfg prov d).2) =
    omap success_cluster (trace (invoke cfg prov d).2) /\
  (reads_never_fail prov -> exists v, (invoke cfg prov d).1 = Ret v).
Proof.
  split; [|split].
  - intros region_name c rest st arn resp e Ha Harn Ht Hel Hg Hdry Hm.
    pose proof (process_cluster_step cfg prov d region_name c st) as Hstep.
    inversion Hstep as [Hn|? ? Ha' ? Ht'|? ? Ha' ? Ht' Hel'|? ? Ha' ? Ht' ? Hg'
                       |? ? ? ? ? ? ? Hdry'|? ? Ha' ? Ht' ? ? ? Hm'
                       |? ? ? Ha' ? Ht' ? ? ? Hm' Heq];
      try (rewrite Ha in Hn; simpl in Hn; congruence);
      try (assert (arn0 = arn) by congruence; subst arn0;
           assert (resp0 = resp) by congruence; subst resp0);
      try congruence.
    assert (e0 = e) by congruence. subst e0.
    eexists. split; [reflexivity|]. split; [reflexivity|].
    split; [|split].
    + unfold add_events. cbn [snd trace]. apply in_or_app. right.
      simpl. auto.
    + unfold add_events. cbn [snd trace]. apply in_or_app. right.
      simpl. auto.
    + apply for_each_cons_ret. symmetry. exact Heq.
  - unfold invoke.
    apply (handler_inv cfg prov d results_match_successes).
    + intros region_name c st. apply results_match_cluster.
    + intros region_name st. apply results_match_event. reflexivity.
    + intros region_name st. apply results_match_event. reflexivity.
    + reflexivity.
  - intros Hr. unfold invoke.
    destruct (handler_returns cfg prov d Hr init_state) as [st' ->].
    eexists. reflexivity.
Qed.

Lemma scenario_reads_never_fail :
  reads_never_fail Scenarios.world /\ reads_never_fail Scenarios.refusing_world.
Proof.
  split; (split; [intros tr region_name; reflexivity|]);
    intros tr region_name arn; simpl;
    destruct (bool_decide (arn = "arn:B")); eexists; reflexivity.
Defined.

Lemma action_fault_is_isolated_witness :
  (exists st',
     process_cluster Scenarios.cfg_default Scenarios.refusing_world Start
       "us-east-1" Scenarios.cluster_A init_state = (Ret tt, st') /\
     results st' = results init_state) /\
  exists v,
    (invoke Scenarios.cfg_default Scenarios.refusing_world Start).1 = Ret v.
Proof.
  destruct (action_fault_is_isolated Scenarios.cfg_default
              Scenarios.refusing_world Start) as (Hone & _ & Hall).
  split.
  - destruct (Hone "us-east-1" Scenarios.cluster_A [] init_state "arn:A"
                Scenarios.tagged InvalidDBClusterStateFault)
      as (st' & Hrun & Hres & _); try (vm_compute; reflexivity).
    exists st'. split; assumption.
  - apply Hall. exact (proj2 scenario_reads_never_fail).
Defined.

(** ** Regions *)

(** C7.  [_regions_to_check] always returns a non-empty list: the configured
    list itself when that is non-empty, and otherwise the one-element list of
    the session's region, or of "us-east-1" when the session has none (or an
    empty one). *)
Theorem regions_to_check_nonempty cfg prov :
  _regions_to_check cfg prov <> [] /\
  (REGIONS cfg <> [] -> _regions_to_check cfg prov = REGIONS cfg) /\
  (REGIONS cfg = [] ->
   _regions_to_check cfg prov =
   [ match session_region_name prov with
     | Some (String a r) => String a r
     | Some EmptyString | None => "us-east-1"
     end ]).
Proof.
  unfold _regions_to_check.
  destruct (REGIONS cfg) as [|r rs] eqn:Hr.
  - split; [discriminate|]. split; [congruence|]. intros _.
    destruct (session_region_name prov) as [[|a s]|]; reflexivity.
  - split; [discriminate|]. split; [reflexivity|]. discriminate.
Qed.

Lemma regions_to_check_nonempty_witness :
  _regions_to_check Scenarios.cfg_default Scenarios.world = ["us-east-1"] /\
  _regions_to_check Scenarios.cfg_default Scenarios.refusing_world = ["sa-east-1"] /\
  _regions_to_check
    (load_config {[ "REGIONS" := "eu-west-1, us-west-2" ]}) Scenarios.world
  = ["eu-west-1"; "us-west-2"].
Proof.
  split; [|split].
  - apply (proj2 (proj2 (regions_to_check_nonempty Scenarios.cfg_default
                           Scenarios.world))).
    vm_compute. reflexivity.
  - apply (proj2 (proj2 (regions_to_check_nonempty Scenarios.cfg_default
                           Scenarios.refusing_world))).
    vm_compute. reflexivity.
  - rewrite (proj1 (proj2 (regions_to_check_nonempty
               (load_config {[ "REGIONS" := "eu-west-1, us-west-2" ]})
               Scenarios.world))).
    + vm_compute. reflexivity.
    + vm_compute. discriminate.
Defined.

(** ** The return value *)

(** C8.  Whenever the handler returns, its value is the dict with exactly
    the five keys: the result list under "started" (start) or "stopped"
    (stop), the dry-run flag under "dry_run", the resolved region list under
    "regions", and the configured key and value under "tag_key" and
    "tag_value"; and it does return whenever the read calls do not fail. *)
Theorem handler_returns_summary cfg prov d :
  (forall v st',
     invoke cfg prov d = (Ret v, st') ->
     v = PDict
           [(match d with Start => "started" | Stop => "stopped" end,
             PList (map (fun r => PDict [("cluster", PStr (res_cluster r));
                                         ("region", PStr (res_region r));
                                         ("action", PStr (res_action r))])
                      (results st')));
            ("dry_run", PBool (DRY_RUN cfg));
            ("regions", PList (map PStr (_regions_to_check cfg prov)));
            ("tag_key", PStr (TAG_KEY cfg));
            ("tag_value", PStr (TAG_VALUE cfg))]) /\
  (reads_never_fail prov -> exists v st', invoke cfg prov d = (Ret v, st')).
Proof.
  split.
  - intros v st'. unfold invoke. rewrite handler_run.
    destruct (for_each _ _ _) as [[[]|e] st'']; [|discriminate].
    intros [= <- <-]. destruct d; reflexivity.
  - intros Hr. unfold invoke.
    destruct (handler_returns cfg prov d Hr init_state) as [st' ->].
    eexists _, _. reflexivity.
Qed.

Lemma handler_returns_summary_witness :
  exists v st', invoke Scenarios.cfg_default Scenarios.world Stop = (Ret v, st').
Proof.
  apply (handler_returns_summary Scenarios.cfg_default Scenarios.world Stop).
  exact (proj1 scenario_reads_never_fail).
Defined.

(** ** Configuration *)

Lemma getenv_insert env name dflt s : getenv (<[name := s]> env) name dflt = s.
Proof. unfold getenv. rewrite lookup_insert_eq. reflexivity. Qed.

(** C9.  The dry-run flag is set exactly when the configured string (the
    environment's DRY_RUN, "false" when unset), lower-cased, is "true"; "1",
    "yes" and "True " (with a trailing space) all leave it unset; and with
    the flag unset [_start_cluster] and [_stop_cluster] begin with the real
    provider call, so that an eligible cluster whose status passes the gate
    gets a state-changing call. *)
Theorem dry_run_flag_exactly_true (env : gmap string string) :
  (DRY_RUN (load_config env) = true <-> lower (configured_dry_run env) = "true") /\
  (forall s, In s ["1"; "yes"; "True "] ->
     DRY_RUN (load_config (<["DRY_RUN" := s]> env)) = false) /\
  (DRY_RUN (load_config env) = false ->
   forall prov docdb cluster_id st,
     (exists rest,
        trace (_start_cluster (load_config env) prov docdb cluster_id st).2 =
        trace st ++
        Call_start_db_cluster docdb cluster_id
          (start_db_cluster prov (trace st) docdb cluster_id) :: rest) /\
     (exists rest,
        trace (_stop_cluster (load_config env) prov docdb cluster_id st).2 =
        trace st ++
        Call_stop_db_cluster docdb cluster_id
          (stop_db_cluster prov (trace st) docdb cluster_id) :: rest)) /\
  (DRY_RUN (load_config env) = false ->
   forall prov d region_name c st arn resp,
     DBClusterArn c = Some arn -> truthy arn = true ->
     list_tags_for_resource prov (trace st) region_name arn = inr resp ->
     should_act (load_config env) d (fetched_tags resp) = true ->
     lower (default "" (Status c)) = gate_status d ->
     exists evs,
       trace (process_cluster (load_config env) prov d region_name c st).2
       = trace st ++ evs /\
       count is_mutating_call evs = 1).
Proof.
  split; [|split; [|split]].
  - unfold load_config, configured_dry_run. simpl. apply bool_decide_eq_true.
  - intros s Hs. unfold load_config. simpl. rewrite getenv_insert.
    simpl in Hs. destruct Hs as [<-|[<-|[<-|[]]]]; vm_compute; reflexivity.
  - intros Hdry prov docdb cluster_id st. split.
    + unfold _start_cluster. rewrite Hdry.
      unfold call_start_db_cluster, mbind, M_bind, get_trace, log, emit, raise,
        mret, M_ret. simpl.
      destruct (start_db_cluster prov (trace st) docdb cluster_id); simpl.
      * exists []. reflexivity.
      * eexists. rewrite <- app_assoc. reflexivity.
    + unfold _stop_cluster. rewrite Hdry.
      unfold call_stop_db_cluster, mbind, M_bind, get_trace, log, emit, raise,
        mret, M_ret. simpl.
      destruct (stop_db_cluster prov (trace st) docdb cluster_id); simpl.
      * exists []. reflexivity.
      * eexists. rewrite <- app_assoc. reflexivity.
  - intros Hdry prov d region_name c st arn resp Ha Harn Ht Hel Hg.
    cluster_paths (load_config env) prov d region_name c st.
    + eexists. split; [reflexivity|]. destruct d; reflexivity.
    + eexists. split; [reflexivity|]. destruct d, e; reflexivity.
Qed.

Lemma dry_run_flag_exactly_true_witness :
  DRY_RUN (load_config Scenarios.env_dry) = true /\
  DRY_RUN (load_config (<["DRY_RUN" := "yes"]> Scenarios.env_dry)) = false /\
  exists rest,
    trace (_start_cluster (load_config ∅) Scenarios.world "us-east-1" "A"
             init_state).2
    = trace init_state ++ Call_start_db_cluster "us-east-1" "A" None :: rest.
Proof.
  split; [|split].
  - apply (proj1 (dry_run_flag_exactly_true Scenarios.env_dry)).
    vm_compute. reflexivity.
  - apply (proj1 (proj2 (dry_run_flag_exactly_true Scenarios.env_dry))).
    simpl. auto.
  - apply (proj1 (proj2 (proj2 (dry_run_flag_exactly_true ∅)))).
    vm_compute. reflexivity.
Defined.

(** C10.  The configured tag value (the environment's TAG_VALUE, "true" when
    unset) is lower-cased when the configuration is loaded; that lower-cased
    string is what [_should_start] and [_should_stop] compare tag values
    with, and what the returned summary holds under "tag_value"; so when the
    configured string has an upper-case letter, the summary's "tag_value" is
    not the configured string. *)
Theorem tag_value_lowered_at_load (env : gmap string string) :
  TAG_VALUE (load_config env) = lower (configured_value env) /\
  (forall T : gmap string string,
     _should_start (load_config env) T =
       match T !! configured_key env with
       | Some val => bool_decide (lower val = lower (configured_value env))
       | None => false
       end /\
     _should_stop (load_config env) T =
       match T !! configured_key env with
       | Some val => bool_decide (lower val = lower (configured_value env))
       | None => false
       end) /\
  (forall prov d v st',
     invoke (load_config env) prov d = (Ret v, st') ->
     exists fields,
       v = PDict fields /\
       dict_get "tag_value" fields = Some (PStr (lower (configured_value env))) /\
       (has_upper (configured_value env) = true ->
        dict_get "tag_value" fields <> Some (PStr (configured_value env)))).
Proof.
  split; [reflexivity|]. split.
  - intros T. split; reflexivity.
  - intros prov d v st'. unfold invoke. rewrite handler_run.
    destruct (for_each _ _ _) as [[[]|e] st'']; [|discriminate].
    intros [= <- <-]. eexists. split; [reflexivity|].
    assert (Hget : dict_get "tag_value"
              [(action_label d,
                PList (map (result_to_py) (results st'')));
               ("dry_run", PBool (DRY_RUN (load_config env)));
               ("regions",
                PList (map PStr (_regions_to_check (load_config env) prov)));
               ("tag_key", PStr (TAG_KEY (load_config env)));
               ("tag_value", PStr (TAG_VALUE (load_config env)))]
            = Some (PStr (lower (configured_value env)))).
    { destruct d; reflexivity. }
    split; [exact Hget|].
    intros Hup. rewrite Hget. intros [= Heq].
    exact (lower_has_upper _ Hup Heq).
Qed.

Lemma tag_value_lowered_at_load_witness :
  exists fields,
    (invoke (load_config Scenarios.env_upper) Scenarios.world Start).1
      = Ret (PDict fields) /\
    dict_get "tag_value" fields = Some (PStr "true") /\
    dict_get "tag_value" fields <> Some (PStr "True").
Proof.
  destruct (proj2 (proj2 (tag_value_lowered_at_load Scenarios.env_upper))
              Scenarios.world Start
              (summary (load_config Scenarios.env_upper) Scenarios.world Start
                 (results (invoke (load_config Scenarios.env_upper)
                             Scenarios.world Start).2))
              (invoke (load_config Scenarios.env_upper) Scenarios.world Start).2)
    as (fields & Hv & Hget & Hne).
  - vm_compute. reflexivity.
  - exists fields. split; [|split].
    + rewrite <- Hv. vm_compute. reflexivity.
    + exact Hget.
    + apply Hne. vm_compute. reflexivity.
Defined.

(** * Further properties of the code *)

(** ** The REGIONS list *)

Lemma lstrip_starts_nonspace s : starts_nonspace (lstrip s).
Proof.
  induction s as [|a s IH]; simpl; [exact I|].
  destruct (is_space a) eqn:Ha; [exact IH|]. simpl. exact Ha.
Qed.

Lemma lstrip_fixed s : starts_nonspace s -> lstrip s = s.
Proof.
  destruct s as [|a s]; simpl; [reflexivity|]. intros ->. reflexivity.
Qed.

Lemma rstrip_starts_nonspace s : starts_nonspace s -> starts_nonspace (rstrip s).
Proof.
  destruct s as [|a s]; simpl; [auto|]. intros Ha.
  destruct (rstrip s); [rewrite Ha|]; simpl; exact Ha.
Qed.

Lemma rstrip_idem s : rstrip (rstrip s) = rstrip s.
Proof.
  induction s as [|a s IH]; simpl; [reflexivity|].
  destruct (rstrip s) as [|b r] eqn:Hr.
  - destruct (is_space a) eqn:Ha; simpl; [reflexivity|]. rewrite Ha. reflexivity.
  - change (rstrip (String a (String b r))) with
      (match rstrip (String b r) with
       | EmptyString => if is_space a then EmptyString else String a EmptyString
       | r' => String a r'
       end).
    rewrite IH. reflexivity.
Qed.

Lemma strip_idem s : strip (strip s) = strip s.
Proof.
  unfold strip.
  rewrite (lstrip_fixed (rstrip (lstrip s))).
  - apply rstrip_idem.
  - apply rstrip_starts_nonspace, lstrip_starts_nonspace.
Qed.

Lemma lstrip_no_comma s : has_comma s = false -> has_comma (lstrip s) = false.
Proof.
  induction s as [|a s IH]; simpl; [auto|]. intros H.
  apply orb_false_iff in H as [Ha Hs].
  destruct (is_space a); [auto|]. simpl. rewrite Ha, Hs. reflexivity.
Qed.

Lemma rstrip_no_comma s : has_comma s = false -> has_comma (rstrip s) = false.
Proof.
  induction s as [|a s IH]; simpl; [auto|]. intros H.
  apply orb_false_iff in H as [Ha Hs]. specialize (IH Hs).
  destruct (rstrip s) as [|b r].
  - destruct (is_space a); simpl; [reflexivity|]. rewrite Ha. reflexivity.
  - simpl in *. rewrite Ha. exact IH.
Qed.

Lemma split_comma_no_comma s : Forall (fun p => has_comma p = false) (split_comma s).
Proof.
  induction s as [|a s IH]; simpl.
  - repeat constructor.
  - destruct (Ascii.eqb a ",") eqn:Ha.
    + constructor; [reflexivity|exact IH].
    + destruct (split_comma s) as [|p ps]; [repeat constructor; simpl; rewrite Ha; reflexivity|].
      inversion IH as [|? ? Hp Hps]; subst.
      constructor; [simpl; rewrite Ha, Hp; reflexivity|exact Hps].
Qed.

Lemma split_comma_nonempty s : split_comma s <> [].
Proof.
  destruct s as [|a s]; simpl; [discriminate|].
  destruct (Ascii.eqb a ","); [discriminate|].
  destruct (split_comma s); discriminate.
Qed.

(** [split(",")] is undone by [",".join]. *)
Lemma join_split_comma s : join_comma (split_comma s) = s.
Proof.
  induction s as [|a s IH]; simpl; [reflexivity|].
  destruct (Ascii.eqb a ",") eqn:Ha.
  - apply Ascii.eqb_eq in Ha. subst a.
    pose proof (split_comma_nonempty s) as Hne.
    destruct (split_comma s) as [|p ps]; [congruence|].
    change (join_comma (EmptyString :: p :: ps))
      with (String "," (join_comma (p :: ps))).
    rewrite IH. reflexivity.
  - pose proof (split_comma_nonempty s) as Hne.
    destruct (split_comma s) as [|p ps]; [congruence|].
    rewrite <- IH. destruct ps; reflexivity.
Qed.

(** X1.  Whatever the REGIONS variable holds, every region name the
    configuration keeps is non-empty, has no surrounding whitespace (it is
    its own [strip]) and holds no comma. *)
Theorem regions_are_clean (env : gmap string string) :
  Forall (fun r => r <> EmptyString /\ strip r = r /\ has_comma r = false)
    (REGIONS (load_config env)).
Proof.
  unfold load_config. simpl.
  pose proof (split_comma_no_comma (getenv env "REGIONS" "")) as Hc.
  induction (split_comma (getenv env "REGIONS" "")) as [|p ps IH]; simpl.
  - constructor.
  - inversion Hc as [|? ? Hp Hps]; subst.
    rewrite filter_cons. destruct (decide (truthy (strip p) = true)) as [Ht|Ht].
    + simpl. constructor; [|exact (IH Hps)].
      split; [|split].
      * intros Heq. rewrite Heq in Ht. discriminate.
      * apply strip_idem.
      * unfold strip. apply rstrip_no_comma, lstrip_no_comma. exact Hp.
    + exact (IH Hps).
Qed.

Lemma strip_blank s : blank_or_commas s = true -> has_comma s = false -> strip s = EmptyString.
Proof.
  unfold strip. induction s as [|a s IH]; simpl; [reflexivity|].
  intros Hb Hc. apply andb_true_iff in Hb as [Ha Hb].
  apply orb_false_iff in Hc as [Hca Hc].
  rewrite Hca, orb_false_r in Ha. rewrite Ha. exact (IH Hb Hc).
Qed.

Lemma split_comma_blank s :
  blank_or_commas s = true ->
  Forall (fun p => blank_or_commas p = true) (split_comma s).
Proof.
  induction s as [|a s IH]; simpl.
  - repeat constructor.
  - intros H. apply andb_true_iff in H as [Ha Hs]. specialize (IH Hs).
    destruct (Ascii.eqb a ",") eqn:Hc.
    + constructor; [reflexivity|exact IH].
    + rewrite orb_false_r in Ha.
      destruct (split_comma s) as [|p ps];
        [repeat constructor; simpl; rewrite Ha; reflexivity|].
      inversion IH as [|? ? Hp Hps]; subst.
      constructor; [simpl; rewrite Ha, Hp; reflexivity|exact Hps].
Qed.

(** X2.  When the REGIONS variable holds nothing but whitespace and commas
    (the empty string included), the configured list is empty and the handler
    scans exactly one region: the session's, or "us-east-1". *)
Theorem blank_regions_fall_back (env : gmap string string) (s : string)
    (prov : provider) :
  blank_or_commas s = true ->
  REGIONS (load_config (<["REGIONS" := s]> env)) = [] /\
  exists r, _regions_to_check (load_config (<["REGIONS" := s]> env)) prov = [r].
Proof.
  intros Hb.
  assert (Hr : REGIONS (load_config (<["REGIONS" := s]> env)) = []).
  { unfold load_config. simpl. rewrite getenv_insert.
    pose proof (split_comma_blank s Hb) as Hall.
    pose proof (split_comma_no_comma s) as Hc.
    induction (split_comma s) as [|p ps IH]; simpl; [reflexivity|].
    inversion Hall as [|? ? Hp Hps]; subst.
    inversion Hc as [|? ? Hcp Hcps]; subst.
    rewrite filter_cons. rewrite (strip_blank p Hp Hcp). simpl.
    destruct (decide (false = true)); [discriminate|]. exact (IH Hps Hcps). }
  split; [exact Hr|].
  unfold _regions_to_check. rewrite Hr. eexists. reflexivity.
Qed.

Lemma blank_regions_fall_back_witness :
  REGIONS (load_config (<["REGIONS" := " , ,,"]> ∅)) = [] /\
  exists r,
    _regions_to_check (load_config (<["REGIONS" := " , ,,"]> ∅))
      ExtraScenarios.empty_world = [r].
Proof.
  apply (blank_regions_fall_back ∅ " , ,," ExtraScenarios.empty_world).
  vm_compute. reflexivity.
Defined.

(** ** The tag dictionary *)

Lemma tags_of_list_snoc l t :
  tags_of_list (l ++ [t]) = <[Key t := default "" (Value t)]> (tags_of_list l).
Proof. unfold tags_of_list. rewrite foldl_app. reflexivity. Qed.

Lemma tags_of_list_lookup (l : list tag) (k : string) :
  tags_of_list l !! k =
  (fun t => default "" (Value t)) <$> last (filter (fun t => Key t = k) l).
Proof.
  induction l as [|t l IH] using rev_ind.
  - reflexivity.
  - rewrite tags_of_list_snoc, filter_app, (filter_singleton _ t []).
    destruct (decide (Key t = k)) as [<-|Hne].
    + rewrite lookup_insert_eq, last_snoc. reflexivity.
    + rewrite lookup_insert_ne by exact Hne. rewrite app_nil_r. exact IH.
Qed.

(** X3.  When the tag fetch returns, [_cluster_tags] makes one provider call
    and returns a dict that holds, under each key, the value of the last
    entry of the TagList with that key (the empty string when that entry has
    no Value), and nothing under keys the TagList does not mention; a
    response without TagList gives the empty dict. *)
Theorem cluster_tags_last_entry_wins prov docdb arn st resp :
  list_tags_for_resource prov (trace st) docdb arn = inr resp ->
  exists T : gmap string string,
    _cluster_tags prov docdb arn st =
      (Ret T, {| results := results st;
                 trace := trace st ++ [Call_list_tags_for_resource docdb arn] |}) /\
    (forall k,
       T !! k =
       (fun t => default "" (Value t))
         <$> last (filter (fun t => Key t = k) (default [] (TagList resp)))) /\
    (TagList resp = None -> T = ∅).
Proof.
  intros Hresp. eexists. split; [|split].
  - unfold _cluster_tags, mbind, M_bind, get_trace, emit, mret, M_ret. simpl.
    rewrite Hresp. reflexivity.
  - intros k. apply tags_of_list_lookup.
  - intros ->. reflexivity.
Qed.

Lemma cluster_tags_last_entry_wins_witness :
  exists T : gmap string string,
    (_cluster_tags
       {| session_region_name := None;
          paginate := fun _ _ => ([], None);
          list_tags_for_resource := fun _ _ _ =>
            inr {| TagList := Some ExtraScenarios.two_tags |};
          start_db_cluster := fun _ _ _ => None;
          stop_db_cluster := fun _ _ _ => None |}
       "us-east-1" "arn:A" init_state).1 = Ret T /\
    T !! "work-on-business-time" = Some "TRUE" /\
    T !! "team" = Some "" /\
    T !! "owner" = None.
Proof.
  destruct (cluster_tags_last_entry_wins
              {| session_region_name := None;
                 paginate := fun _ _ => ([], None);
                 list_tags_for_resource := fun _ _ _ =>
                   inr {| TagList := Some ExtraScenarios.two_tags |};
                 start_db_cluster := fun _ _ _ => None;
                 stop_db_cluster := fun _ _ _ => None |}
              "us-east-1" "arn:A" init_state
              {| TagList := Some ExtraScenarios.two_tags |})
    as (T & Hrun & Hlook & _); [reflexivity|].
  exists T. split; [rewrite Hrun; reflexivity|].
  rewrite !Hlook. repeat split; vm_compute; reflexivity.
Defined.

(** ** What the structured line shows *)



(** ** What eligibility depends on *)

Lemma should_act_lookup cfg d (T : gmap string string) :
  should_act cfg d T =
  match T !! TAG_KEY cfg with
  | Some val => bool_decide (lower val = TAG_VALUE cfg)
  | None => false
  end.
Proof. destruct d; reflexivity. Qed.

(** X5.  Tags under any other key do not matter: adding, changing or removing
    a tag whose key is not exactly the configured key leaves the eligibility
    of a cluster as it was, in both directions. *)
Theorem other_tags_do_not_matter cfg d (T : gmap string string) k v :
  k <> TAG_KEY cfg ->
  should_act cfg d (<[k := v]> T) = should_act cfg d T /\
  should_act cfg d (delete k T) = should_act cfg d T.
Proof.
  intros Hne. rewrite !should_act_lookup.
  rewrite lookup_insert_ne by exact Hne.
  rewrite lookup_delete_ne by exact Hne. split; reflexivity.
Qed.

Lemma other_tags_do_not_matter_witness :
  should_act Scenarios.cfg_default Stop
    (<["Work-On-Business-Time" := "true"]> Scenarios.tags_same_case) = true.
Proof.
  rewrite (proj1 (other_tags_do_not_matter Scenarios.cfg_default Stop
                    Scenarios.tags_same_case "Work-On-Business-Time" "true"
                    ltac:(vm_compute; discriminate))).
  vm_compute. reflexivity.
Defined.

(** X6.  Only the letters' case-folded form of the tag value matters: two
    values with the same lower-case form give the same eligibility; and two
    environments that differ only in the case of TAG_VALUE give the same
    predicate. *)
Theorem value_case_does_not_matter (env : gmap string string) d
    (T : gmap string string) :
  (forall v1 v2,
     lower v1 = lower v2 ->
     should_act (load_config env) d (<[configured_key env := v1]> T) =
     should_act (load_config env) d (<[configured_key env := v2]> T)) /\
  (forall V1 V2,
     lower V1 = lower V2 ->
     should_act (load_config (<["TAG_VALUE" := V1]> env)) d T =
     should_act (load_config (<["TAG_VALUE" := V2]> env)) d T).
Proof.
  split.
  - intros v1 v2 Hl. rewrite !should_act_lookup.
    change (TAG_KEY (load_config env)) with (configured_key env).
    rewrite !lookup_insert_eq, Hl. reflexivity.
  - intros V1 V2 Hl. rewrite !should_act_lookup. simpl.
    rewrite !getenv_insert, Hl.
    unfold getenv. rewrite !lookup_insert_ne by discriminate. reflexivity.
Qed.

Lemma value_case_does_not_matter_witness :
  should_act (load_config ∅) Start (<[configured_key ∅ := "tRuE"]> ∅) =
  should_act (load_config ∅) Start (<[configured_key ∅ := "true"]> ∅).
Proof.
  apply (proj1 (value_case_does_not_matter ∅ Start ∅) "tRuE" "true").
  vm_compute. reflexivity.
Defined.

(** X7.  The value the handler reports under "tag_value" is one that works:
    a cluster tagged, under the configured key, with the reported value or
    with the configured string as it was written, is eligible in both
    directions. *)
Theorem reported_value_is_eligible (env : gmap string string) d
    (T : gmap string string) :
  T !! configured_key env = Some (TAG_VALUE (load_config env)) \/
  T !! configured_key env = Some (configured_value env) ->
  should_act (load_config env) d T = true.
Proof.
  rewrite should_act_lookup.
  change (TAG_KEY (load_config env)) with (configured_key env).
  intros [-> | ->]; apply bool_decide_eq_true; simpl.
  - apply lower_idem.
  - reflexivity.
Qed.

Lemma reported_value_is_eligible_witness :
  should_act (load_config Scenarios.env_upper) Stop
    {[ "work-on-business-time" := "True" ]} = true.
Proof.
  apply (reported_value_is_eligible Scenarios.env_upper Stop).
  right. vm_compute. reflexivity.
Defined.

(** X8.  The configuration reads four variables and no other: setting any
    other environment variable changes nothing. *)
Theorem other_variables_are_ignored (env : gmap string string) name value :
  name <> "TAG_KEY" -> name <> "TAG_VALUE" ->
  name <> "REGIONS" -> name <> "DRY_RUN" ->
  load_config (<[name := value]> env) = load_config env.
Proof.
  intros H1 H2 H3 H4. unfold load_config, getenv.
  rewrite !lookup_insert_ne by congruence. reflexivity.
Qed.

Lemma other_variables_are_ignored_witness :
  load_config (<["AWS_REGION" := "sa-east-1"]> Scenarios.env_dry) =
  load_config Scenarios.env_dry.
Proof.
  apply (other_variables_are_ignored Scenarios.env_dry "AWS_REGION" "sa-east-1");
    discriminate.
Defined.

(** ** More on loops *)

Section MoreLoops.

Context {A : Type} (body : A -> M unit).

Lemma for_each_inv_in (P : hstate -> Prop) l :
  (forall x st, In x l -> P st -> P (body x st).2) ->
  forall st, P st -> P (for_each body l st).2.
Proof.
  induction l as [|x xs IH]; intros Hbody st HP; simpl.
  - exact HP.
  - unfold mbind, M_bind.
    pose proof (Hbody x st (or_introl eq_refl) HP) as Hx.
    destruct (body x st) as [[[]|e] st']; simpl in *.
    + apply IH; [|exact Hx]. intros y st0 Hy. apply Hbody. right. exact Hy.
    + exact Hx.
Qed.


End MoreLoops.

Lemma process_region_run cfg prov d region_name st :
  process_region cfg prov d region_name st =
  match for_each (process_page cfg prov d region_name)
          (paginate prov (trace st ++ [Log Info (MsgRegion region_name)])
             region_name).1
          {| results := results st;
             trace := trace st ++ [Log Info (MsgRegion region_name);
                                   Call_paginate region_name] |} with
  | (Ret _, st') =>
      match (paginate prov (trace st ++ [Log Info (MsgRegion region_name)])
               region_name).2 with
      | Some e => (Raise e, st')
      | None => (Ret tt, st')
      end
  | (Raise e, st') => (Raise e, st')
  end.
Proof.
  unfold process_region, mbind, M_bind, log, get_trace, emit, raise, mret, M_ret.
  simpl. rewrite <- app_assoc. simpl.
  destruct (for_each _ _ _) as [[[]|e] st']; [|reflexivity].
  destruct (paginate _ _ _).2; reflexivity.
Qed.

(** ** Which faults escape *)





(** X10.  A failing tag fetch is not caught: the loop body raises the fault
    right after the call, with no structured line and no result, and the
    clusters that follow it in the page are not processed. *)
Theorem tag_fetch_fault_aborts cfg prov d region_name c rest st arn e :
  DBClusterArn c = Some arn -> truthy arn = true ->
  list_tags_for_resource prov (trace st) region_name arn = inl e ->
  process_cluster cfg prov d region_name c st =
    (Raise e, {| results := results st;
                 trace := trace st ++ [Call_list_tags_for_resource region_name arn] |}) /\
  for_each (process_cluster cfg prov d region_name) (c :: rest) st =
    (Raise e, {| results := results st;
                 trace := trace st ++ [Call_list_tags_for_resource region_name arn] |}).
Proof.
  intros Ha Harn Ht.
  assert (Hrun : process_cluster cfg prov d region_name c st =
    (Raise e, {| results := results st;
                 trace := trace st ++ [Call_list_tags_for_resource region_name arn] |})).
  { pose proof (process_cluster_step cfg prov d region_name c st) as Hstep.
    inversion Hstep as [Hn|a0 e0 Ha0 ? Ht0| | | | |]; subst;
      try (rewrite Ha in Hn; simpl in Hn; congruence);
      try congruence.
    assert (a0 = arn) by congruence. subst a0.
    assert (e0 = e) by congruence. subst e0. reflexivity. }
  split; [exact Hrun|].
  apply for_each_cons_raise. exact Hrun.
Qed.

Lemma tag_fetch_fault_aborts_witness :
  for_each (process_cluster Scenarios.cfg_default ExtraScenarios.tagless_world
              Stop "us-east-1")
    [Scenarios.cluster_C; Scenarios.cluster_A] init_state =
  (Raise (OtherException "AccessDenied"),
   {| results := [];
      trace := [Call_list_tags_for_resource "us-east-1" "arn:C"] |}).
Proof.
  apply (tag_fetch_fault_aborts Scenarios.cfg_default
           ExtraScenarios.tagless_world Stop "us-east-1" Scenarios.cluster_C
           [Scenarios.cluster_A] init_state "arn:C"
           (OtherException "AccessDenied")); reflexivity.
Defined.

(** ** What a run never does *)

(** X11.  The two gates exclude each other: from the same state and for the
    same cluster descriptor, the start handler's loop body and the stop
    handler's cannot both attempt an action. *)
Theorem gates_exclude_each_other cfg prov region_name c st :
  exists evs_start evs_stop,
    trace (process_cluster cfg prov Start region_name c st).2
      = trace st ++ evs_start /\
    trace (process_cluster cfg prov Stop region_name c st).2
      = trace st ++ evs_stop /\
    (count is_action_attempt evs_start = 0 \/
     count is_action_attempt evs_stop = 0).
Proof.
  pose proof (process_cluster_step cfg prov Start region_name c st) as H1.
  pose proof (process_cluster_step cfg prov Stop region_name c st) as H2.
  inversion H1; subst; inversion H2; subst;
    first
      [ eexists _, _; split; [reflexivity|]; split; [reflexivity|];
        first [left; reflexivity | right; reflexivity]
      | simpl in *; congruence ].
Qed.

Lemma other_verb_cluster cfg prov d region_name c st :
  Forall (fun ev => is_other_verb_call d ev = false) (trace st) ->
  Forall (fun ev => is_other_verb_call d ev = false)
    (trace (process_cluster cfg prov d region_name c st).2).
Proof.
  intros Hst.
  cluster_paths cfg prov d region_name c st; simpl;
    rewrite ?Forall_app; repeat split; auto;
    repeat (apply Forall_cons; split; [destruct d; try reflexivity|]);
    try apply Forall_nil_2;
    match goal with e : exn |- _ => destruct e; reflexivity end.
Qed.

(** X12.  The start handler never calls [stop_db_cluster] and the stop
    handler never calls [start_db_cluster], whatever the provider answers. *)
Theorem each_handler_uses_its_own_verb cfg prov d :
  Forall (fun ev => is_other_verb_call d ev = false)
    (trace (invoke cfg prov d).2).
Proof.
  unfold invoke.
  apply (handler_inv cfg prov d
           (fun st => Forall (fun ev => is_other_verb_call d ev = false) (trace st))).
  - intros region_name c st. apply other_verb_cluster.
  - intros region_name st Hst. simpl. apply Forall_app. split; [exact Hst|].
    repeat constructor. destruct d; reflexivity.
  - intros region_name st Hst. simpl. apply Forall_app. split; [exact Hst|].
    repeat constructor. destruct d; reflexivity.
  - apply Forall_nil_2.
Qed.

Lemma real_run_cluster cfg prov d region_name c st :
  DRY_RUN cfg = false ->
  Forall (fun ev => is_dry_run_line ev = false) (trace st) /\
  Forall (fun r => res_action r = action_label d) (results st) ->
  Forall (fun ev => is_dry_run_line ev = false)
    (trace (process_cluster cfg prov d region_name c st).2) /\
  Forall (fun r => res_action r = action_label d)
    (results (process_cluster cfg prov d region_name c st).2).
Proof.
  intros Hdry [Htr Hres].
  cluster_paths cfg prov d region_name c st; simpl;
    rewrite ?Forall_app; repeat split; auto;
    repeat (apply Forall_cons; split; [try reflexivity|]);
    try apply Forall_nil_2;
    try (destruct d; reflexivity);
    match goal with e : exn |- _ => destruct e; reflexivity end.
Qed.

(** X13.  With the dry-run flag unset, no "[DRY_RUN]" line is logged and
    every result entry has the direction's own action, "started" for the
    start handler and "stopped" for the stop handler. *)
Theorem real_run_records_the_verb cfg prov d :
  DRY_RUN cfg = false ->
  Forall (fun ev => is_dry_run_line ev = false) (trace (invoke cfg prov d).2) /\
  Forall (fun r => res_action r =
                   match d with Start => "started" | Stop => "stopped" end)
    (results (invoke cfg prov d).2).
Proof.
  intros Hdry. unfold invoke.
  change (match d with Start => "started" | Stop => "stopped" end)
    with (action_label d).
  apply (handler_inv cfg prov d
           (fun st =>
              Forall (fun ev => is_dry_run_line ev = false) (trace st) /\
              Forall (fun r => res_action r = action_label d) (results st))).
  - intros region_name c st. apply real_run_cluster. exact Hdry.
  - intros region_name st [Htr Hres]. simpl. split; [|exact Hres].
    apply Forall_app. split; [exact Htr|]. repeat constructor.
  - intros region_name st [Htr Hres]. simpl. split; [|exact Hres].
    apply Forall_app. split; [exact Htr|]. repeat constructor.
  - split; apply Forall_nil_2.
Qed.

Lemma real_run_records_the_verb_witness :
  Forall (fun r => res_action r = "stopped")
    (results (invoke Scenarios.cfg_default Scenarios.world Stop).2).
Proof.
  apply (real_run_records_the_verb Scenarios.cfg_default Scenarios.world Stop).
  vm_compute. reflexivity.
Defined.

(** ** Every result has its reason in the log *)

Lemma result_justified_mono d tr evs r :
  result_justified d tr r -> result_justified d (tr ++ evs) r.
Proof.
  intros [tags Hin]. exists tags. apply in_or_app. left. exact Hin.
Qed.

Lemma results_justified_cluster cfg prov d region_name c st :
  Forall (result_justified d (trace st)) (results st) ->
  Forall (result_justified d (trace (process_cluster cfg prov d region_name c st).2))
    (results (process_cluster cfg prov d region_name c st).2).
Proof.
  intros Hst.
  assert (Hold : forall evs,
            Forall (result_justified d (trace st ++ evs)) (results st)).
  { intros evs. eapply Forall_impl; [exact Hst|].
    intros r. apply result_justified_mono. }
  assert (Hnew : forall arn resp act rest,
            should_act cfg d (fetched_tags resp) = true ->
            lower (default "" (Status c)) = gate_status d ->
            result_justified d
              (trace st ++ eval_events cfg d region_name c arn (fetched_tags resp)
                 ++ rest)
              (entry region_name c act)).
  { intros arn resp act rest Hel Hg.
    exists (matching_tags cfg (fetched_tags resp)).
    apply in_or_app. right. unfold eval_events. rewrite Hel, Hg.
    simpl. right. left. reflexivity. }
  cluster_paths cfg prov d region_name c st; simpl; try apply Hold.
  - apply Forall_app. split; [apply Hold|].
    apply Forall_cons. split; [|apply Forall_nil_2]. apply Hnew; assumption.
  - apply Forall_app. split; [apply Hold|].
    apply Forall_cons. split; [|apply Forall_nil_2]. apply Hnew; assumption.
Qed.

(** X14.  The handler never acts on a cluster it did not log as eligible:
    for every entry of the result list, in either direction and in dry-run
    or not, the trace holds a structured line for that cluster and region
    with eligibility true and the status the gate asks for. *)
Theorem every_result_has_its_line cfg prov d :
  Forall
    (fun r =>
       exists tags,
         In (Log Info
               (MsgEval (res_cluster r) (res_region r)
                  match d with Start => "stopped" | Stop => "available" end
                  true tags))
            (trace (invoke cfg prov d).2))
    (results (invoke cfg prov d).2).
Proof.
  change (match d with Start => "stopped" | Stop => "available" end)
    with (gate_status d).
  unfold invoke.
  apply (handler_inv cfg prov d
           (fun st => Forall (result_justified d (trace st)) (results st))).
  - intros region_name c st. apply results_justified_cluster.
  - intros region_name st Hst. simpl. eapply Forall_impl; [exact Hst|].
    intros r. apply result_justified_mono.
  - intros region_name st Hst. simpl. eapply Forall_impl; [exact Hst|].
    intros r. apply result_justified_mono.
  - apply Forall_nil_2.
Qed.

(** ** Counting *)

Lemma attempts_accounted_cluster cfg prov d region_name c st :
  count is_action_attempt (trace st) =
    length (results st) + count is_faulted_call (trace st) ->
  count is_action_attempt (trace (process_cluster cfg prov d region_name c st).2) =
    length (results (process_cluster cfg prov d region_name c st).2)
    + count is_faulted_call (trace (process_cluster cfg prov d region_name c st).2).
Proof.
  intros Hst.
  cluster_paths cfg prov d region_name c st; simpl;
    rewrite ?count_app, ?length_app; simpl; try lia.
  - destruct d; simpl; lia.
  - destruct d, e; simpl; lia.
Qed.

(** X15.  Every attempt is accounted for: over a whole invocation the number
    of action attempts (state-changing calls and dry-run simulations) is the
    number of result entries plus the number of state-changing calls that
    raised. *)
Theorem attempts_are_results_or_faults cfg prov d :
  count is_action_attempt (trace (invoke cfg prov d).2) =
  length (results (invoke cfg prov d).2)
  + count is_faulted_call (trace (invoke cfg prov d).2).
Proof.
  unfold invoke.
  apply (handler_inv cfg prov d
           (fun st => count is_action_attempt (trace st) =
                      length (results st) + count is_faulted_call (trace st))).
  - intros region_name c st. apply attempts_accounted_cluster.
  - intros region_name st Hst. simpl. rewrite !count_app. simpl. lia.
  - intros region_name st Hst. simpl. rewrite !count_app. simpl. lia.
  - reflexivity.
Qed.

Lemma truthy_nonempty s : truthy s = true -> s <> EmptyString.
Proof. intros H ->. discriminate. Qed.

Lemma fetches_cluster cfg prov d region_name c st :
  Forall tag_fetch_has_arn (trace st) /\
  count is_eval_line (trace st) <= count is_tag_fetch (trace st) ->
  Forall tag_fetch_has_arn (trace (process_cluster cfg prov d region_name c st).2) /\
  count is_eval_line (trace (process_cluster cfg prov d region_name c st).2)
  <= count is_tag_fetch (trace (process_cluster cfg prov d region_name c st).2).
Proof.
  intros [Harn Hle].
  cluster_paths cfg prov d region_name c st; simpl;
    (split;
     [ rewrite ?Forall_app; repeat split; auto;
       repeat (apply Forall_cons; split;
               [first [ apply truthy_nonempty; assumption
                      | exact I
                      | destruct d; exact I
                      | match goal with e : exn |- _ => destruct e; exact I end ]|]);
       apply Forall_nil_2
     | rewrite ?count_app; simpl; try lia;
       first [ destruct d; simpl; lia
             | match goal with e : exn |- _ => destruct d, e; simpl; lia end ] ]).
Qed.

Lemma fetches_cluster_exact cfg prov d region_name c st :
  reads_never_fail prov ->
  count is_eval_line (trace st) = count is_tag_fetch (trace st) ->
  count is_eval_line (trace (process_cluster cfg prov d region_name c st).2)
  = count is_tag_fetch (trace (process_cluster cfg prov d region_name c st).2).
Proof.
  intros [_ Hread] Hst.
  pose proof (process_cluster_step cfg prov d region_name c st) as Hstep.
  inversion Hstep; subst; simpl; rewrite ?count_app; simpl; try lia.
  - destruct (Hread (trace st) region_name arn) as [resp Hresp]. congruence.
  - destruct d; simpl; lia.
  - destruct d, e; simpl; lia.
Qed.

(** X16.  Tags are only ever fetched with a non-empty ARN; there are never
    more structured lines than tag fetches; and when the read calls do not
    fail there is exactly one structured line per tag fetch. *)
Theorem one_line_per_tag_fetch cfg prov d :
  Forall tag_fetch_has_arn (trace (invoke cfg prov d).2) /\
  count is_eval_line (trace (invoke cfg prov d).2)
    <= count is_tag_fetch (trace (invoke cfg prov d).2) /\
  (reads_never_fail prov ->
   count is_eval_line (trace (invoke cfg prov d).2)
     = count is_tag_fetch (trace (invoke cfg prov d).2)).
Proof.
  unfold invoke.
  assert (Hgen : Forall tag_fetch_has_arn (trace (handler cfg prov d init_state).2) /\
                 count is_eval_line (trace (handler cfg prov d init_state).2)
                 <= count is_tag_fetch (trace (handler cfg prov d init_state).2)).
  { apply (handler_inv cfg prov d
             (fun st => Forall tag_fetch_has_arn (trace st) /\
                        count is_eval_line (trace st)
                        <= count is_tag_fetch (trace st))).
    - intros region_name c st. apply fetches_cluster.
    - intros region_name st [Ha Hle]. simpl. split.
      + apply Forall_app. split; [exact Ha|]. repeat constructor.
      + rewrite !count_app. simpl. lia.
    - intros region_name st [Ha Hle]. simpl. split.
      + apply Forall_app. split; [exact Ha|]. repeat constructor.
      + rewrite !count_app. simpl. lia.
    - split; [apply Forall_nil_2|reflexivity]. }
  destruct Hgen as [Ha Hle]. split; [exact Ha|]. split; [exact Hle|].
  intros Hr.
  apply (handler_inv cfg prov d
           (fun st => count is_eval_line (trace st)
                      = count is_tag_fetch (trace st))).
  - intros region_name c st. apply fetches_cluster_exact. exact Hr.
  - intros region_name st Hst. simpl. rewrite !count_app. simpl. lia.
  - intros region_name st Hst. simpl. rewrite !count_app. simpl. lia.
  - reflexivity.
Qed.

Lemma one_line_per_tag_fetch_witness :
  count is_eval_line (trace (invoke Scenarios.cfg_default Scenarios.world Start).2)
  = count is_tag_fetch (trace (invoke Scenarios.cfg_default Scenarios.world Start).2).
Proof.
  apply (one_line_per_tag_fetch Scenarios.cfg_default Scenarios.world Start).
  exact (proj1 scenario_reads_never_fail).
Defined.

(** ** The regions, one after the other *)

Lemma openings_app tr1 tr2 : openings (tr1 ++ tr2) = openings tr1 ++ openings tr2.
Proof.
  induction tr1 as [|ev tr1 IH]; simpl; [reflexivity|].
  destruct (is_opening ev); simpl; rewrite IH; reflexivity.
Qed.

Lemma openings_cluster cfg prov d region_name c st :
  openings (trace (process_cluster cfg prov d region_name c st).2)
  = openings (trace st).
Proof.
  cluster_paths cfg prov d region_name c st; simpl;
    rewrite ?openings_app; simpl; rewrite ?app_nil_r; try reflexivity.
  - destruct d; simpl; rewrite app_nil_r; reflexivity.
  - destruct d, e; simpl; rewrite app_nil_r; reflexivity.
Qed.

Lemma openings_region cfg prov d region_name st :
  openings (trace (process_region cfg prov d region_name st).2)
  = openings (trace st) ++ region_openings [region_name].
Proof.
  rewrite process_region_run.
  pose proof (for_each_inv (process_page cfg prov d region_name)
    (fun s => openings (trace s)
              = openings (trace st) ++ region_openings [region_name])
    (paginate prov (trace st ++ [Log Info (MsgRegion region_name)]) region_name).1)
    as Hpages.
  match goal with |- context [for_each ?b ?l ?s] =>
    specialize (Hpages
      (fun p s0 Hs0 =>
         for_each_inv (process_cluster cfg prov d region_name) _
           (default [] (DBClusters p))
           (fun c0 s1 Hs1 =>
              eq_trans (openings_cluster cfg prov d region_name c0 s1) Hs1)
           s0 Hs0) s)
  end.
  simpl in Hpages. rewrite openings_app in Hpages. simpl in Hpages.
  specialize (Hpages eq_refl).
  destruct (for_each _ _ _) as [[[]|e] st']; simpl in *; [|exact Hpages].
  destruct (paginate _ _ _).2; simpl; exact Hpages.
Qed.

Lemma region_openings_app l1 l2 :
  region_openings (l1 ++ l2) = region_openings l1 ++ region_openings l2.
Proof. unfold region_openings. apply flat_map_app. Qed.

Lemma openings_regions_loop cfg prov d regions st :
  exists done rest,
    regions = done ++ rest /\
    openings (trace (for_each (process_region cfg prov d) regions st).2)
      = openings (trace st) ++ region_openings done /\
    ((for_each (process_region cfg prov d) regions st).1 = Ret tt -> rest = []) /\
    (forall e,
       (for_each (process_region cfg prov d) regions st).1 = Raise e ->
       done <> []).
Proof.
  revert st. induction regions as [|r rs IH]; intros st; simpl.
  - exists [], [].
    split; [reflexivity|]. split; [simpl; rewrite app_nil_r; reflexivity|].
    split; [reflexivity|].
    intros e He. discriminate He.
  - unfold mbind, M_bind.
    pose proof (openings_region cfg prov d r st) as Hr.
    destruct (process_region cfg prov d r st) as [[[]|e] st'] eqn:Hrun; simpl in *.
    + destruct (IH st') as (done & rest & -> & Hopen & Hret & Hraise).
      exists (r :: done), rest. split; [reflexivity|]. split.
      * rewrite Hopen, Hr. rewrite <- app_assoc. reflexivity.
      * split; [exact Hret|]. intros e _ Hnil. discriminate Hnil.
    + exists [r], rs. split; [reflexivity|]. split; [exact Hr|].
      split; [intros He; discriminate He|]. intros e0 _ Hnil. discriminate Hnil.
Qed.

(** X17.  Regions are opened one at a time and in the order of the resolved
    list: the opening events of the trace (the region's log line, then its
    paginator) are those of a prefix of that list; the prefix is the whole
    list when the handler returns, and it is not empty when the handler
    raises. *)
Theorem regions_are_opened_in_order cfg prov d :
  exists done rest,
    _regions_to_check cfg prov = done ++ rest /\
    openings (trace (invoke cfg prov d).2) =
      flat_map (fun r => [Log Info (MsgRegion r); Call_paginate r]) done /\
    (forall v, (invoke cfg prov d).1 = Ret v -> rest = []) /\
    (forall e, (invoke cfg prov d).1 = Raise e -> done <> []).
Proof.
  unfold invoke. rewrite handler_run.
  destruct (openings_regions_loop cfg prov d (_regions_to_check cfg prov)
              init_state) as (done & rest & Hsplit & Hopen & Hret & Hraise).
  exists done, rest. split; [exact Hsplit|].
  destruct (for_each _ _ _) as [[[]|e] st']; simpl in *.
  - split; [exact Hopen|]. split; [intros v _; apply Hret; reflexivity|].
    intros e; discriminate.
  - split; [exact Hopen|]. split; [intros v; discriminate|].
    intros e0 _. apply (Hraise e). reflexivity.
Qed.

Lemma regions_are_opened_in_order_witness :
  exists done rest,
    _regions_to_check (load_config ExtraScenarios.env_regions) Scenarios.world
      = done ++ rest /\
    openings (trace (invoke (load_config ExtraScenarios.env_regions)
                       Scenarios.world Start).2) =
      flat_map (fun r => [Log Info (MsgRegion r); Call_paginate r]) done /\
    rest = [].
Proof.
  destruct (regions_are_opened_in_order (load_config ExtraScenarios.env_regions)
              Scenarios.world Start) as (done & rest & Hs & Ho & Hret & _).
  exists done, rest. split; [exact Hs|]. split; [exact Ho|].
  eapply Hret. vm_compute. reflexivity.
Defined.

(** ** An account with no cluster *)

Lemma process_region_no_clusters cfg prov d region_name st :
  no_clusters prov ->
  process_region cfg prov d region_name st =
  (Ret tt, add_events st (region_openings [region_name])).
Proof.
  intros Hno. rewrite process_region_run.
  destruct (Hno (trace st ++ [Log Info (MsgRegion region_name)]) region_name)
    as [Hfault Hpages].
  rewrite Hfault.
  assert (Hloop : forall pages s,
            Forall (fun p => default [] (DBClusters p) = []) pages ->
            for_each (process_page cfg prov d region_name) pages s = (Ret tt, s)).
  { induction pages as [|p ps IH]; intros s Hall; simpl; [reflexivity|].
    inversion Hall as [|? ? Hp Hps]; subst.
    unfold mbind, M_bind, process_page. rewrite Hp. simpl. apply IH. exact Hps. }
  rewrite (Hloop _ _ Hpages). reflexivity.
Qed.

(** X18.  When no region lists any cluster (pages without "DBClusters" or
    with an empty list) and pagination does not fail, the handler returns
    the summary with an empty result list, and its whole activity is to open
    each resolved region in turn: no tag fetch, no action. *)
Theorem nothing_to_do_when_no_clusters cfg prov d :
  no_clusters prov ->
  invoke cfg prov d =
  (Ret (PDict
          [(match d with Start => "started" | Stop => "stopped" end, PList []);
           ("dry_run", PBool (DRY_RUN cfg));
           ("regions", PList (map PStr (_regions_to_check cfg prov)));
           ("tag_key", PStr (TAG_KEY cfg));
           ("tag_value", PStr (TAG_VALUE cfg))]),
   {| results := [];
      trace := flat_map (fun r => [Log Info (MsgRegion r); Call_paginate r])
                 (_regions_to_check cfg prov) |}).
Proof.
  intros Hno. unfold invoke. rewrite handler_run.
  assert (Hloop : forall regions st,
            for_each (process_region cfg prov d) regions st =
            (Ret tt, add_events st (region_openings regions))).
  { induction regions as [|r rs IH]; intros st; simpl.
    - unfold add_events. simpl. rewrite app_nil_r. destruct st; reflexivity.
    - unfold mbind, M_bind. rewrite (process_region_no_clusters _ _ _ _ _ Hno).
      rewrite IH. unfold add_events. simpl. rewrite <- app_assoc. reflexivity. }
  rewrite Hloop. simpl. destruct d; reflexivity.
Qed.

Lemma nothing_to_do_when_no_clusters_witness :
  invoke Scenarios.cfg_dry ExtraScenarios.empty_world Stop =
  (Ret (PDict
          [("stopped", PList []);
           ("dry_run", PBool true);
           ("regions", PList [PStr "eu-west-1"]);
           ("tag_key", PStr "work-on-business-time");
           ("tag_value", PStr "true")]),
   {| results := [];
      trace := [Log Info (MsgRegion "eu-west-1"); Call_paginate "eu-west-1"] |}).
Proof.
  apply (nothing_to_do_when_no_clusters Scenarios.cfg_dry
           ExtraScenarios.empty_world Stop).
  intros tr region_name. split; [reflexivity|].
  simpl. repeat constructor.
Defined.

(** ** Nothing outside the resolved regions *)

Lemma process_region_inv_at cfg prov d (P : hstate -> Prop) region_name :
  (forall c st, P st -> P (process_cluster cfg prov d region_name c st).2) ->
  (forall st, P st -> P (add_events st [Log Info (MsgRegion region_name)])) ->
  (forall st, P st -> P (add_events st [Call_paginate region_name])) ->
  forall st, P st -> P (process_region cfg prov d region_name st).2.
Proof.
  intros Hc Hline Hpag st HP. rewrite process_region_run.
  pose proof (Hpag _ (Hline _ HP)) as H2.
  unfold add_events in H2. simpl in H2. rewrite <- app_assoc in H2. simpl in H2.
  pose proof (for_each_inv (process_page cfg prov d region_name) P
    (paginate prov (trace st ++ [Log Info (MsgRegion region_name)]) region_name).1
    (fun p s Hs =>
       for_each_inv (process_cluster cfg prov d region_name) P
         (default [] (DBClusters p)) Hc s Hs) _ H2) as H3.
  destruct (for_each _ _ _) as [[[]|e] st']; simpl in *; [|exact H3].
  destruct (paginate _ _ _).2; simpl; exact H3.
Qed.

Lemma call_region_fault_log d cluster_id e :
  call_region (fault_log d cluster_id e) = None.
Proof. destruct e; reflexivity. Qed.

Lemma call_region_mutate_event d region_name cluster_id fault :
  call_region (mutate_event d region_name cluster_id fault) = Some region_name.
Proof. destruct d; reflexivity. Qed.

Lemma within_regions_cluster cfg prov d regions region_name c st :
  In region_name regions ->
  within_regions regions st ->
  within_regions regions (process_cluster cfg prov d region_name c st).2.
Proof.
  intros Hin [Hres Htr]. unfold within_regions.
  assert (Hcall : forall ev,
            (call_region ev = None \/ call_region ev = Some region_name) ->
            forall r, call_region ev = Some r -> In r regions).
  { intros ev [Hn|Hs] r Hr; [congruence|]. rewrite Hs in Hr.
    injection Hr as <-. exact Hin. }
  cluster_paths cfg prov d region_name c st; simpl;
    rewrite ?Forall_app; repeat split; auto;
    repeat (apply Forall_cons; split;
            [first [ exact Hin
                   | apply Hcall;
                     first [ left; reflexivity
                           | right; reflexivity
                           | left; apply call_region_fault_log
                           | right; apply call_region_mutate_event ] ]|]);
    apply Forall_nil_2.
Qed.

(** X19.  The handler touches only the resolved regions: every provider
    call in the trace, and every entry of the result list, names a region of
    [_regions_to_check]. *)
Theorem only_resolved_regions_are_touched cfg prov d :
  Forall (fun r => In (res_region r) (_regions_to_check cfg prov))
    (results (invoke cfg prov d).2) /\
  Forall (fun ev => forall r, call_region ev = Some r ->
                              In r (_regions_to_check cfg prov))
    (trace (invoke cfg prov d).2).
Proof.
  unfold invoke.
  assert (Hloop : within_regions (_regions_to_check cfg prov)
            (for_each (process_region cfg prov d) (_regions_to_check cfg prov)
               init_state).2).
  { apply (for_each_inv_in (process_region cfg prov d)
             (within_regions (_regions_to_check cfg prov))).
    - intros region_name st Hin Hst.
      apply (process_region_inv_at cfg prov d
               (within_regions (_regions_to_check cfg prov)) region_name);
        [ intros c s; apply within_regions_cluster; exact Hin
        | | | exact Hst ].
      + intros s [Hres Htr]. split; [exact Hres|]. simpl.
        apply Forall_app. split; [exact Htr|].
        repeat constructor. intros r Hr. discriminate Hr.
      + intros s [Hres Htr]. split; [exact Hres|]. simpl.
        apply Forall_app. split; [exact Htr|].
        repeat constructor. intros r [= <-]. exact Hin.
    - split; apply Forall_nil_2. }
  rewrite handler_run.
  destruct (for_each _ _ _) as [[[]|e] st']; exact Hloop.
Qed.

(** ** Writing REGIONS and reading it back *)

Lemma split_comma_no_comma_piece p : has_comma p = false -> split_comma p = [p].
Proof.
  induction p as [|a p IH]; simpl; [reflexivity|]. intros H.
  apply orb_false_iff in H as [Ha Hp]. rewrite Ha, (IH Hp). reflexivity.
Qed.

Lemma split_comma_piece_then p s :
  has_comma p = false ->
  split_comma (p ++ String "," s)%string = p :: split_comma s.
Proof.
  induction p as [|a p IH]; simpl; [reflexivity|]. intros H.
  apply orb_false_iff in H as [Ha Hp]. rewrite Ha, (IH Hp). reflexivity.
Qed.

Lemma split_join_comma rs :
  rs <> [] -> Forall (fun r => has_comma r = false) rs ->
  split_comma (join_comma rs) = rs.
Proof.
  induction rs as [|r rs IH]; [congruence|]. intros _ Hall.
  inversion Hall as [|? ? Hr Hrs]; subst.
  destruct rs as [|r' rs'].
  - simpl. apply split_comma_no_comma_piece. exact Hr.
  - change (join_comma (r :: r' :: rs'))
      with (r ++ String "," (join_comma (r' :: rs')))%string.
    rewrite split_comma_piece_then by exact Hr.
    rewrite IH; [reflexivity|discriminate|exact Hrs].
Qed.

(** X20.  Region names that are non-empty, without surrounding whitespace
    and without commas survive the trip through the environment: joined with
    commas and put in REGIONS, they are read back as the same list, in the
    same order and with repetitions kept. *)
Theorem regions_round_trip (env : gmap string string) (rs : list string) :
  Forall (fun r => r <> EmptyString /\ strip r = r /\ has_comma r = false) rs ->
  REGIONS (load_config (<["REGIONS" := join_comma rs]> env)) = rs.
Proof.
  intros Hclean. unfold load_config. simpl. rewrite getenv_insert.
  destruct rs as [|r0 rs0]; [reflexivity|].
  rewrite split_join_comma;
    [| discriminate
     | eapply Forall_impl; [exact Hclean|]; intros r (_ & _ & H); exact H ].
  induction Hclean as [|r rs (Hne & Hstrip & _) _ IH]; [reflexivity|].
  rewrite filter_cons. rewrite Hstrip.
  destruct (decide (truthy r = true)) as [_|Hf].
  - simpl. rewrite Hstrip. f_equal. exact IH.
  - destruct r; [congruence|]. exfalso. apply Hf. reflexivity.
Qed.

Lemma regions_round_trip_witness :
  REGIONS (load_config
             (<["REGIONS" := join_comma ["sa-east-1"; "us-east-1"; "sa-east-1"]]> ∅))
  = ["sa-east-1"; "us-east-1"; "sa-east-1"].
Proof.
  apply (regions_round_trip ∅ ["sa-east-1"; "us-east-1"; "sa-east-1"]).
  repeat constructor; try discriminate; vm_compute; reflexivity.
Defined.

(** ** Clusters that are left alone *)

(** X21.  A cluster whose descriptor has no "Status" is never acted upon, by
    either handler: no action is attempted and the result list is unchanged,
    whatever its tags and whatever the provider answers. *)
Theorem cluster_without_status_is_left_alone cfg prov d region_name c st :
  Status c = None ->
  exists evs,
    trace (process_cluster cfg prov d region_name c st).2 = trace st ++ evs /\
    count is_action_attempt evs = 0 /\
    results (process_cluster cfg prov d region_name c st).2 = results st.
Proof.
  intros Hnone.
  pose proof (process_cluster_step cfg prov d region_name c st) as Hstep.
  inversion Hstep; subst; simpl;
    try (eexists; split; [reflexivity|]; split; reflexivity);
    exfalso;
    match goal with
    | Hg : lower (default "" (Status c)) = gate_status d |- _ =>
        rewrite Hnone in Hg; destruct d; discriminate Hg
    end.
Qed.

Lemma cluster_without_status_is_left_alone_witness :
  exists evs,
    trace (process_cluster Scenarios.cfg_default Scenarios.world Start
             "us-east-1"
             {| DBClusterIdentifier := "A"; DBClusterArn := Some "arn:A";
                Status := None |} init_state).2 = trace init_state ++ evs /\
    count is_action_attempt evs = 0 /\
    results (process_cluster Scenarios.cfg_default Scenarios.world Start
               "us-east-1"
               {| DBClusterIdentifier := "A"; DBClusterArn := Some "arn:A";
                  Status := None |} init_state).2 = results init_state.
Proof.
  apply (cluster_without_status_is_left_alone Scenarios.cfg_default
           Scenarios.world Start "us-east-1"
           {| DBClusterIdentifier := "A"; DBClusterArn := Some "arn:A";
              Status := None |} init_state).
  reflexivity.
Defined.

(** X22.  A cluster without tags (the response has no "TagList", or an empty
    one) is never acted upon: the loop body logs the structured line with
    eligibility false and no tag, attempts nothing and returns. *)
Theorem untagged_cluster_is_left_alone cfg prov d region_name c st arn resp :
  DBClusterArn c = Some arn -> truthy arn = true ->
  list_tags_for_resource prov (trace st) region_name arn = inr resp ->
  TagList resp = None \/ TagList resp = Some [] ->
  process_cluster cfg prov d region_name c st =
  (Ret tt,
   {| results := results st;
      trace := trace st ++
        [Call_list_tags_for_resource region_name arn;
         Log Info (MsgEval (DBClusterIdentifier c) region_name
                     (lower (default "" (Status c))) false ∅)] |}).
Proof.
  intros Ha Harn Ht Hempty.
  assert (HT : fetched_tags resp = ∅).
  { unfold fetched_tags. destruct Hempty as [-> | ->]; reflexivity. }
  assert (Hel : should_act cfg d (fetched_tags resp) = false).
  { rewrite HT, should_act_lookup, lookup_empty. reflexivity. }
  assert (Hm : matching_tags cfg (fetched_tags resp) = ∅).
  { rewrite HT. unfold matching_tags. apply map_filter_empty. }
  pose proof (process_cluster_step cfg prov d region_name c st) as Hstep.
  inversion Hstep as [Hn|? ? Ha' ? Ht'|? ? Ha' ? Ht' Hel' Heq
                     |? ? Ha' ? Ht' Hel'|? ? Ha' ? Ht' Hel'
                     |? ? Ha' ? Ht' Hel'|? ? ? Ha' ? Ht' Hel'];
    try (rewrite Ha in Hn; simpl in Hn; congruence);
    try (assert (arn0 = arn) by congruence; subst arn0);
    try congruence;
    try (assert (resp0 = resp) by congruence; subst resp0; congruence).
  assert (resp0 = resp) by congruence. subst resp0.
  unfold add_events, eval_events. rewrite Hel, Hm. reflexivity.
Qed.

Lemma untagged_cluster_is_left_alone_witness :
  process_cluster Scenarios.cfg_default ExtraScenarios.empty_world Start
    "eu-west-1" Scenarios.cluster_B init_state =
  (Ret tt,
   {| results := [];
      trace := [Call_list_tags_for_resource "eu-west-1" "arn:B";
                Log Info (MsgEval "B" "eu-west-1" "stopped" false ∅)] |}).
Proof.
  apply (untagged_cluster_is_left_alone Scenarios.cfg_default
           ExtraScenarios.empty_world Start "eu-west-1" Scenarios.cluster_B
           init_state "arn:B" {| TagList := None |});
    [reflexivity | reflexivity | reflexivity | left; reflexivity].
Defined.

(** ** Dry-run as a rehearsal *)

Lemma should_act_with_dry_run b cfg d T :
  should_act (with_dry_run b cfg) d T = should_act cfg d T.
Proof. destruct d; reflexivity. Qed.

Lemma mutate_oracle_accepts prov d tr region_name cluster_id :
  actions_never_fail prov ->
  mutate_oracle prov d tr region_name cluster_id = None.
Proof.
  intros Hok. destruct (Hok tr region_name cluster_id) as [Hs Hp].
  destruct d; assumption.
Qed.

Section Rehearsal.

Context {A : Type} (body1 body2 : A -> M unit).
Variable R : hstate -> hstate -> Prop.

Hypothesis bodies_agree :
  forall x s1 s2,
    R s1 s2 ->
    (body1 x s1).1 = (body2 x s2).1 /\ R (body1 x s1).2 (body2 x s2).2.

Lemma for_each_rel l s1 s2 :
  R s1 s2 ->
  (for_each body1 l s1).1 = (for_each body2 l s2).1 /\
  R (for_each body1 l s1).2 (for_each body2 l s2).2.
Proof.
  revert s1 s2. induction l as [|x xs IH]; intros s1 s2 HR; simpl.
  - split; [reflexivity|exact HR].
  - unfold mbind, M_bind.
    destruct (bodies_agree x s1 s2 HR) as [Hout Hst].
    destruct (body1 x s1) as [[[]|e1] t1], (body2 x s2) as [[[]|e2] t2];
      simpl in *; try discriminate.
    + apply IH. exact Hst.
    + split; [exact Hout|exact Hst].
Qed.

End Rehearsal.

Lemma rehearsal_cluster cfg prov d region_name c st1 st2 :
  reads_ignore_trace prov -> actions_never_fail prov ->
  same_targets st1 st2 ->
  (process_cluster (with_dry_run true cfg) prov d region_name c st1).1 =
  (process_cluster (with_dry_run false cfg) prov d region_name c st2).1 /\
  same_targets
    (process_cluster (with_dry_run true cfg) prov d region_name c st1).2
    (process_cluster (with_dry_run false cfg) prov d region_name c st2).2.
Proof.
  intros Hreads Hok Hsame.
  assert (Htags : forall arn,
            list_tags_for_resource prov (trace st1) region_name arn =
            list_tags_for_resource prov (trace st2) region_name arn).
  { intros arn. apply (Hreads (trace st1) (trace st2) region_name). }
  pose proof (process_cluster_step (with_dry_run true cfg) prov d region_name c st1) as H1.
  pose proof (process_cluster_step (with_dry_run false cfg) prov d region_name c st2) as H2.
  unfold same_targets in *.
  inversion H1; subst; inversion H2; subst;
    repeat match goal with
    | H : context [should_act (with_dry_run _ _) _ _] |- _ =>
        rewrite should_act_with_dry_run in H
    | H : list_tags_for_resource prov (trace st1) _ _ = _ |- _ =>
        rewrite Htags in H
    | H : mutate_oracle _ _ _ _ _ = Some _ |- _ =>
        rewrite (mutate_oracle_accepts _ _ _ _ _ Hok) in H; discriminate H
    | Ha : DBClusterArn ?c = Some ?a, Hn : truthy_opt (DBClusterArn ?c) = false,
      Ht : truthy ?a = true |- _ =>
        exfalso; rewrite Ha in Hn; simpl in Hn; congruence
    end;
    simpl in *; try congruence;
    repeat match goal with
    | Ha : DBClusterArn ?c = Some ?a1, Hb : DBClusterArn ?c = Some ?a2 |- _ =>
        assert (a2 = a1) by congruence; subst a2; clear Hb
    end;
    try congruence;
    repeat match goal with
    | Ha : list_tags_for_resource ?p ?t ?r ?a = inr ?r1,
      Hb : list_tags_for_resource ?p ?t ?r ?a = inr ?r2 |- _ =>
        assert (r2 = r1) by congruence; subst r2; clear Hb
    end;
    try congruence;
    try (split; [congruence|assumption]);
    split; try reflexivity;
    rewrite !map_app, Hsame; reflexivity.
Qed.

Lemma rehearsal_region cfg prov d region_name st1 st2 :
  reads_ignore_trace prov -> actions_never_fail prov ->
  same_targets st1 st2 ->
  (process_region (with_dry_run true cfg) prov d region_name st1).1 =
  (process_region (with_dry_run false cfg) prov d region_name st2).1 /\
  same_targets
    (process_region (with_dry_run true cfg) prov d region_name st1).2
    (process_region (with_dry_run false cfg) prov d region_name st2).2.
Proof.
  intros Hreads Hok Hsame. rewrite !process_region_run.
  destruct (Hreads (trace st1 ++ [Log Info (MsgRegion region_name)])
              (trace st2 ++ [Log Info (MsgRegion region_name)]) region_name)
    as [-> _].
  destruct (for_each_rel
              (process_page (with_dry_run true cfg) prov d region_name)
              (process_page (with_dry_run false cfg) prov d region_name)
              same_targets
              (fun p s1 s2 Hs =>
                 for_each_rel _ _ same_targets
                   (fun c0 t1 t2 Ht =>
                      rehearsal_cluster cfg prov d region_name c0 t1 t2
                        Hreads Hok Ht)
                   (default [] (DBClusters p)) s1 s2 Hs)
              (paginate prov (trace st2 ++ [Log Info (MsgRegion region_name)])
                 region_name).1
              {| results := results st1;
                 trace := trace st1 ++ [Log Info (MsgRegion region_name);
                                        Call_paginate region_name] |}
              {| results := results st2;
                 trace := trace st2 ++ [Log Info (MsgRegion region_name);
                                        Call_paginate region_name] |}
              Hsame) as [Hout Hst].
  destruct (for_each _ _ _) as [[[]|e1] t1], (for_each _ _ _) as [[[]|e2] t2];
    simpl in *; try discriminate.
  - destruct (paginate _ _ _).2; split; (reflexivity || exact Hst).
  - split; [exact Hout|exact Hst].
Qed.

(** X23.  Dry-run is a faithful rehearsal: with a provider whose read
    answers do not depend on what the handler did before and which accepts
    every start and stop call, the run with the dry-run flag set and the
    run without it record the same clusters, in the same regions and in the
    same order, and either both return or both raise the same exception. *)
Theorem dry_run_predicts_real_run cfg prov d :
  reads_ignore_trace prov -> actions_never_fail prov ->
  map acted_on (results (invoke (with_dry_run true cfg) prov d).2) =
  map acted_on (results (invoke (with_dry_run false cfg) prov d).2) /\
  (forall e,
     (invoke (with_dry_run true cfg) prov d).1 = Raise e <->
     (invoke (with_dry_run false cfg) prov d).1 = Raise e).
Proof.
  intros Hreads Hok. unfold invoke. rewrite !handler_run.
  change (_regions_to_check (with_dry_run true cfg) prov)
    with (_regions_to_check (with_dry_run false cfg) prov).
  destruct (for_each_rel
              (process_region (with_dry_run true cfg) prov d)
              (process_region (with_dry_run false cfg) prov d)
              same_targets
              (fun r s1 s2 Hs => rehearsal_region cfg prov d r s1 s2 Hreads Hok Hs)
              (_regions_to_check (with_dry_run false cfg) prov)
              init_state init_state eq_refl) as [Hout Hst].
  destruct (for_each _ _ _) as [[[]|e1] t1], (for_each _ _ _) as [[[]|e2] t2];
    simpl in *; try discriminate.
  - split; [exact Hst|]. intros e. split; discriminate.
  - split; [exact Hst|]. injection Hout as ->. reflexivity.
Qed.

Lemma scenario_world_is_steady :
  reads_ignore_trace Scenarios.world /\ actions_never_fail Scenarios.world.
Proof.
  split.
  - intros tr tr' region_name. split; [reflexivity|]. intros arn. reflexivity.
  - intros tr region_name cluster_id. split; reflexivity.
Defined.

Lemma dry_run_predicts_real_run_witness :
  map acted_on
    (results (invoke (with_dry_run true Scenarios.cfg_default)
                Scenarios.world Start).2) =
  map acted_on
    (results (invoke (with_dry_run false Scenarios.cfg_default)
                Scenarios.world Start).2).
Proof.
  apply (dry_run_predicts_real_run Scenarios.cfg_default Scenarios.world Start).
  - exact (proj1 scenario_world_is_steady).
  - exact (proj2 scenario_world_is_steady).
Defined.

Lemma only_resolved_regions_are_touched_witness :
  Forall (fun r => In (res_region r)
                     (_regions_to_check Scenarios.cfg_default Scenarios.world))
    (results (invoke Scenarios.cfg_default Scenarios.world Start).2) /\
  In "us-east-1" (_regions_to_check Scenarios.cfg_default Scenarios.world).
Proof.
  destruct (only_resolved_regions_are_touched Scenarios.cfg_default
              Scenarios.world Start) as [Hres Htr].
  split; [exact Hres|].
  apply (proj1 (List.Forall_forall _ _) Htr (Call_paginate "us-east-1")).
  - vm_compute. right. left. reflexivity.
  - reflexivity.
Defined.

(** ** Caught faults are logged *)

Lemma fault_lines_cluster cfg prov d region_name c st :
  count is_invalid_state_line (trace st) = count is_invalid_state_call (trace st) /\
  count is_failure_line (trace st) = count is_other_fault_call (trace st) ->
  count is_invalid_state_line
    (trace (process_cluster cfg prov d region_name c st).2)
  = count is_invalid_state_call
      (trace (process_cluster cfg prov d region_name c st).2) /\
  count is_failure_line
    (trace (process_cluster cfg prov d region_name c st).2)
  = count is_other_fault_call
      (trace (process_cluster cfg prov d region_name c st).2).
Proof.
  intros [Hinv Hoth].
  cluster_paths cfg prov d region_name c st; simpl;
    rewrite ?count_app; simpl; try (split; lia).
  - destruct d; simpl; split; lia.
  - destruct d, e; simpl; split; lia.
Qed.

(** X24.  No caught fault goes unlogged, and the two handlers of the [try]
    are told apart: over a whole invocation there is one invalid-state
    warning per state-changing call refused with the invalid-state fault,
    and one error line per state-changing call that raised anything else. *)
Theorem every_caught_fault_is_logged cfg prov d :
  count is_invalid_state_line (trace (invoke cfg prov d).2)
    = count is_invalid_state_call (trace (invoke cfg prov d).2) /\
  count is_failure_line (trace (invoke cfg prov d).2)
    = count is_other_fault_call (trace (invoke cfg prov d).2).
Proof.
  unfold invoke.
  apply (handler_inv cfg prov d
           (fun st =>
              count is_invalid_state_line (trace st)
                = count is_invalid_state_call (trace st) /\
              count is_failure_line (trace st)
                = count is_other_fault_call (trace st))).
  - intros region_name c st. apply fault_lines_cluster.
  - intros region_name st [Hi Ho]. simpl. rewrite !count_app. simpl. split; lia.
  - intros region_name st [Hi Ho]. simpl. rewrite !count_app. simpl. split; lia.
  - split; reflexivity.
Qed.
